(** * hackathon-starter: conversation lifecycle, client reconciliation, file tree

    A shallow embedding of
    - the status callback route  (POST /api/conversations/[id]/status),
    - the sandbox helpers of lib/moru.ts (killSandbox, buildFileTree),
    - the client lifecycle controller of app/page.tsx (Home),
    followed by the properties of the lifecycle specification. *)

From stdpp Require Import base strings gmap list sorting pretty.
From Stdlib Require Import ZArith Lia.
From Stdlib Require OrdersEx QArith Qround.

Local Open Scope Z_scope.

(** ** JavaScript values the code relies on *)

Module Js.

(** A thrown value: an [Error] object with its message, or anything else. *)
Inductive Thrown : Type :=
| ErrorObj (message : string)
| NotAnError.

(** The completion of an awaited call. *)
Inductive outcome (A : Type) : Type :=
| Ok (a : A)
| Throws (e : Thrown).
Arguments Ok {A} a.
Arguments Throws {A} e.

(** Truthiness of a [string | null | undefined]: null, undefined and the
    empty string are falsy. *)
Definition truthy (o : option string) : bool :=
  match o with
  | Some s => negb (String.eqb s "")
  | None => false
  end.

(** [a || b] on optional strings. *)
Definition or_else (a b : option string) : option string :=
  if truthy a then a else b.

(** [error instanceof Error ? error.message : fallback] *)
Definition message_or (e : Thrown) (fallback : string) : string :=
  match e with
  | ErrorObj m => m
  | NotAnError => fallback
  end.

(** A JavaScript number, as far as a depth limit needs it: NaN, the two
    infinities, or a finite value (every finite double is a rational). *)
Inductive JsNumber : Type :=
| NaN
| PosInfinity
| NegInfinity
| Finite (q : QArith_base.Q).

(** The number that an integer literal denotes. *)
Definition number_of_Z (z : Z) : JsNumber := Finite (QArith_base.inject_Z z).

(** The largest integer up to which every integer is a double: 2^53. *)
Definition MAX_EXACT : Z := 9007199254740992.

(** [depth + 1] for a counter that starts at 0: exact below 2^53, where
    the sum is no longer a double and rounds back to 2^53. *)
Definition depth_succ (depth : Z) : Z :=
  if Z.ltb depth MAX_EXACT then depth + 1 else depth.

(** [depth > maxDepth] for an integer [depth]: false against NaN. *)
Definition depth_gt (depth : Z) (maxDepth : JsNumber) : bool :=
  match maxDepth with
  | NaN => false
  | PosInfinity => false
  | NegInfinity => true
  | Finite q =>
      negb (QArith_base.Qle_bool (QArith_base.inject_Z depth) q)
  end.

(** The first depth of the counter at which [depth > maxDepth] holds, if
    the counter can reach one. *)
Definition cut_depth (maxDepth : JsNumber) : option Z :=
  match maxDepth with
  | NaN => None
  | PosInfinity => None
  | NegInfinity => Some 0
  | Finite q =>
      let c := Z.max 0 (Qround.Qfloor q + 1) in
      if Z.leb c MAX_EXACT then Some c else None
  end.

End Js.

Export Js.

(** ** Data model *)

(** Modelled from the spec: the status union of [ConversationResponse] in
    lib/types, which is not part of the sources; section 3 gives its four
    values. *)
Inductive Status : Type := Idle | Running | Completed | Error.

Global Instance Status_eq_dec : EqDecision Status.
Proof. solve_decision. Defined.

Definition terminal (s : Status) : bool :=
  match s with
  | Completed | Error => true
  | Idle | Running => false
  end.

(** Modelled from the spec: the conversation row of the relational store
    (the schema is not part of the sources); section 3 lists its columns. *)
Record Conversation : Type := mkConversation {
  conv_id : string;
  conv_status : Status;
  conv_sessionId : option string;
  conv_sandboxId : option string;
  conv_volumeId : option string;
  conv_errorMessage : option string
}.

(** Modelled from the spec: [StatusCallbackRequest] of lib/types, the body
    [{status, errorMessage?, sessionId?}] of section 4.3. *)
Record StatusCallbackRequest : Type := mkStatusCallbackRequest {
  req_status : Status;
  req_errorMessage : option string;
  req_sessionId : option string
}.

(** ** The server: record store, sandbox provider, callback route *)

Module Server.

(** What the outside world does during one request: whether the two
    store calls fail, and what [Sandbox.kill] does for each sandbox. *)
Record Env : Type := mkEnv {
  findUnique_fault : option Thrown;
  update_fault : option Thrown;
  kill_fault : string -> option Thrown
}.

(** The state shared by all requests: the rows of the store and the log
    of the [Sandbox.kill] calls issued so far, oldest first. *)
Record World : Type := mkWorld {
  db : gmap string Conversation;
  kills : list string
}.

(** State and exceptions threaded through the awaited calls. *)
Definition M (A : Type) : Type := World -> World * outcome A.

Definition ret {A} (a : A) : M A := fun w => (w, Ok a).
Definition throw {A} (e : Thrown) : M A := fun w => (w, Throws e).
Definition bind {A B} (m : M A) (k : A -> M B) : M B :=
  fun w =>
    match m w with
    | (w', Ok a) => k a w'
    | (w', Throws e) => (w', Throws e)
    end.
Definition try_catch {A} (m : M A) (handler : Thrown -> M A) : M A :=
  fun w =>
    match m w with
    | (w', Ok a) => (w', Ok a)
    | (w', Throws e) => handler e w'
    end.

Global Instance M_ret : MRet M := @ret.
Global Instance M_bind : MBind M := fun A B k m => bind m k.

(** [await request.json()] *)
Definition request_json (body : outcome StatusCallbackRequest)
  : M StatusCallbackRequest :=
  match body with
  | Ok r => ret r
  | Throws e => throw e
  end.

(** [prisma.conversation.findUnique({ where: { id } })] *)
Definition findUnique (env : Env) (id : string) : M (option Conversation) :=
  fun w =>
    match findUnique_fault env with
    | Some e => (w, Throws e)
    | None => (w, Ok (db w !! id))
    end.

(** The [data] object of the update: the four columns it assigns. *)
Record UpdateData : Type := mkUpdateData {
  data_status : Status;
  data_errorMessage : option string;
  data_sessionId : option string;
  data_sandboxId : option string
}.

Definition apply_data (d : UpdateData) (c : Conversation) : Conversation :=
  {| conv_id := conv_id c;
     conv_status := data_status d;
     conv_sessionId := data_sessionId d;
     conv_sandboxId := data_sandboxId d;
     conv_volumeId := conv_volumeId c;
     conv_errorMessage := data_errorMessage d |}.

(** [prisma.conversation.update({ where: { id }, data })]: the other
    columns are kept; a missing row is an error. *)
Definition update (env : Env) (id : string) (d : UpdateData) : M unit :=
  fun w =>
    match update_fault env with
    | Some e => (w, Throws e)
    | None =>
        match db w !! id with
        | None => (w, Throws (ErrorObj "Record to update not found."))
        | Some c =>
            ({| db := <[id := apply_data d c]> (db w); kills := kills w |},
             Ok tt)
        end
    end.

(** [Sandbox.kill(sandboxId)] of the provider: the attempt is logged,
    then the provider answers. *)
Definition Sandbox_kill (env : Env) (sandboxId : string) : M unit :=
  fun w =>
    let w' := {| db := db w; kills := kills w ++ [sandboxId] |} in
    match kill_fault env sandboxId with
    | Some e => (w', Throws e)
    | None => (w', Ok tt)
    end.

(** lib/moru.ts, [killSandbox]: the catch block is empty. *)
Definition killSandbox (env : Env) (sandboxId : string) : M unit :=
  try_catch (Sandbox_kill env sandboxId) (fun _ => ret tt).

(** [NextResponse.json(body, { status })] *)
Inductive ResponseBody : Type :=
| BodySuccess (success : bool)
| BodyError (error : string).

Record Response : Type := mkResponse {
  resp_body : ResponseBody;
  resp_code : Z
}.

Definition json_success : Response :=
  {| resp_body := BodySuccess true; resp_code := 200 |}.
Definition json_error (msg : string) (code : Z) : Response :=
  {| resp_body := BodyError msg; resp_code := code |}.

(** The body of the [try] block of the route. *)
Definition POST_try (env : Env) (id : string)
    (body : outcome StatusCallbackRequest) : M Response :=
  r ← request_json body;
  conversation ← findUnique env id;
  match conversation with
  | None => ret (json_error "Conversation not found" 404)
  | Some c =>
      update env id
        {| data_status := req_status r;
           data_errorMessage := or_else (req_errorMessage r) None;
           data_sessionId := or_else (req_sessionId r) (conv_sessionId c);
           data_sandboxId := None |};;
      match conv_sandboxId c with
      | Some sandboxId =>
          if truthy (Some sandboxId) then killSandbox env sandboxId
          else ret tt
      | None => ret tt
      end;;
      ret json_success
  end.

(** POST /api/conversations/[id]/status: the [try] block and its
    [catch], which answers 500 with the message of the error. *)
Definition POST (env : Env) (id : string)
    (body : outcome StatusCallbackRequest) (w : World) : World * Response :=
  match POST_try env id body w with
  | (w', Ok resp) => (w', resp)
  | (w', Throws e) =>
      (w', json_error (message_or e "Internal server error") 500)
  end.

(** The row of a conversation after a call. *)
Definition row_after (id : string) (r : World * Response)
  : option Conversation := db (r.1) !! id.

(** The [Sandbox.kill] calls issued between two worlds. *)
Definition kills_during (w w' : World) : list string :=
  drop (length (kills w)) (kills w').

(** Worlds reached by status callbacks for conversation [id]: a first
    callback whose update went through, then any further callbacks,
    each in its own environment.  The index is the request of the last
    callback that answered success. *)
Inductive callback_reachable (id : string)
  : StatusCallbackRequest -> World -> Prop :=
| cr_first env r w :
    (POST env id (Ok r) w).2 = json_success ->
    callback_reachable id r (POST env id (Ok r) w).1
| cr_again env r0 r w :
    callback_reachable id r0 w ->
    (POST env id (Ok r) w).2 = json_success ->
    callback_reachable id r (POST env id (Ok r) w).1
| cr_failed env r0 body w :
    callback_reachable id r0 w ->
    (POST env id body w).2 <> json_success ->
    callback_reachable id r0 (POST env id body w).1.

(** The update of the route, as a function of the row it read. *)
Definition callback_row (r : StatusCallbackRequest) (c : Conversation)
  : Conversation :=
  apply_data
    {| data_status := req_status r;
       data_errorMessage := or_else (req_errorMessage r) None;
       data_sessionId := or_else (req_sessionId r) (conv_sessionId c);
       data_sandboxId := None |} c.

(** The termination attempts of one call, from the row it read. *)
Definition cleanup_of (c : Conversation) : list string :=
  match conv_sandboxId c with
  | Some sandboxId => if truthy (Some sandboxId) then [sandboxId] else []
  | None => []
  end.

(** The store answers both calls of the route. *)
Definition store_ok (env : Env) : Prop :=
  findUnique_fault env = None /\ update_fault env = None.

(** The lifecycle invariant of section 8, on one row. *)
Definition lifecycle_invariant (c : Conversation) : Prop :=
  (conv_status c = Error ->
     conv_sandboxId c = None /\ conv_errorMessage c <> None)
  /\ (conv_status c = Completed ->
       conv_sandboxId c = None /\ conv_errorMessage c = None).

(** A running conversation with a sandbox and a learned session, and
    the world that holds only it. *)
Definition running_row : Conversation :=
  {| conv_id := "c1"; conv_status := Running;
     conv_sessionId := Some "s1"; conv_sandboxId := Some "sb1";
     conv_volumeId := Some "v1"; conv_errorMessage := None |}.

Definition running_world : World :=
  {| db := {[ "c1" := running_row ]}; kills := [] |}.


(** Section 8, two callbacks, read to the letter: the second status
    wins, each call attempts a termination, and both answer success. *)
Definition two_callbacks_as_stated (env1 env2 : Env) (id : string)
    (r1 r2 : StatusCallbackRequest) (w : World) : Prop :=
  let p1 := POST env1 id (Ok r1) w in
  let p2 := POST env2 id (Ok r2) p1.1 in
  conv_status <$> row_after id p2 = Some (req_status r2)
  /\ kills_during w p1.1 <> []
  /\ kills_during p1.1 p2.1 <> []
  /\ p1.2 = json_success
  /\ p2.2 = json_success.

Definition bare_error : StatusCallbackRequest :=
  {| req_status := Error; req_errorMessage := None;
     req_sessionId := None |}.

Definition error_boom : StatusCallbackRequest :=
  {| req_status := Error; req_errorMessage := Some "boom";
     req_sessionId := None |}.

Definition completed_s2 : StatusCallbackRequest :=
  {| req_status := Completed; req_errorMessage := None;
     req_sessionId := Some "s2" |}.


(** The provider and the store both answer. *)
Definition calm : Env :=
  {| findUnique_fault := None; update_fault := None;
     kill_fault := fun _ => None |}.

(** The store answers, every [Sandbox.kill] throws. *)
Definition kill_throws : Env :=
  {| findUnique_fault := None; update_fault := None;
     kill_fault := fun _ => Some (ErrorObj "sandbox not found") |}.

(** A run of callbacks handled one after the other, each answered before
    the next is read, each with its own environment, conversation id and
    body; the responses are collected. Callbacks that overlap are
    [POST_overlapped] below. *)
Fixpoint run_callbacks
    (calls : list (Env * string * outcome StatusCallbackRequest))
    (w : World) : World * list Response :=
  match calls with
  | [] => (w, [])
  | (env, id, body) :: rest =>
      let p := POST env id body w in
      let q := run_callbacks rest p.1 in
      (q.1, p.2 :: q.2)
  end.


(** No termination can be attempted for conversation [id]: it has no
    row, or its row records no sandbox. *)
Definition quiet (id : string) (w : World) : Prop :=
  forall c, db w !! id = Some c -> cleanup_of c = [].

(** Three callbacks for c1: an error report whose termination throws, a
    malformed body, and a completion report. *)
Definition three_calls : list (Env * string * outcome StatusCallbackRequest) :=
  [ (kill_throws, "c1", Ok error_boom);
    (calm, "c1", Throws (ErrorObj "Unexpected end of JSON input"));
    (calm, "c1", Ok completed_s2) ].

(** The route up to the answer of [findUnique]: an early response, or
    the parsed body and the row held in [conversation]. *)
Definition POST_read (env : Env) (id : string)
    (body : outcome StatusCallbackRequest) (w : World)
  : World * (Response + StatusCallbackRequest * Conversation) :=
  match (r ← request_json body;
         conversation ← findUnique env id;
         ret (r, conversation)) w with
  | (w', Ok (r, Some c)) => (w', inr (r, c))
  | (w', Ok (_, None)) => (w', inl (json_error "Conversation not found" 404))
  | (w', Throws e) =>
      (w', inl (json_error (message_or e "Internal server error") 500))
  end.

(** The rest of the route, from the update on, for the row [c] that the
    request read before. *)
Definition POST_write (env : Env) (id : string)
    (rc : StatusCallbackRequest * Conversation) (w : World)
  : World * Response :=
  let '(r, c) := rc in
  match (update env id
           {| data_status := req_status r;
              data_errorMessage := or_else (req_errorMessage r) None;
              data_sessionId := or_else (req_sessionId r) (conv_sessionId c);
              data_sandboxId := None |};;
         match conv_sandboxId c with
         | Some sandboxId =>
             if truthy (Some sandboxId) then killSandbox env sandboxId
             else ret tt
         | None => ret tt
         end;;
         ret json_success) w with
  | (w', Ok resp) => (w', resp)
  | (w', Throws e) =>
      (w', json_error (message_or e "Internal server error") 500)
  end.

Definition POST_finish (env : Env) (id : string)
    (a : Response + StatusCallbackRequest * Conversation) (w : World)
  : World * Response :=
  match a with
  | inl resp => (w, resp)
  | inr rc => POST_write env id rc w
  end.

(** Two callbacks that overlap: both have the answer of their
    [findUnique] before either goes on to its update. *)
Definition POST_overlapped (env1 env2 : Env) (id : string)
    (body1 body2 : outcome StatusCallbackRequest) (w : World)
  : World * (Response * Response) :=
  let read1 := POST_read env1 id body1 w in
  let read2 := POST_read env2 id body2 read1.1 in
  let end1 := POST_finish env1 id read1.2 read2.1 in
  let end2 := POST_finish env2 id read2.2 end1.1 in
  (end2.1, (end1.2, end2.2)).

(** The store is down: [findUnique] throws. *)
Definition store_down : Env :=
  {| findUnique_fault := Some (ErrorObj "Can't reach database server");
     update_fault := None;
     kill_fault := fun _ => None |}.

(** [findUnique] answers, [update] throws something that is not an
    Error. *)
Definition update_breaks : Env :=
  {| findUnique_fault := None;
     update_fault := Some NotAnError;
     kill_fault := fun _ => None |}.

(** A second conversation, idle, beside the running one. *)
Definition idle_row : Conversation :=
  {| conv_id := "c2"; conv_status := Idle;
     conv_sessionId := None; conv_sandboxId := None;
     conv_volumeId := Some "v2"; conv_errorMessage := None |}.

Definition two_rows_world : World :=
  {| db := <[ "c2" := idle_row ]> {[ "c1" := running_row ]}; kills := [] |}.

End Server.

(** ** The client: Home of app/page.tsx *)

Module Client.

(** Pending message type for optimistic UI. *)
Record PendingMessage : Type := mkPendingMessage {
  pm_id : string;
  pm_content : string;
  pm_timestamp : string
}.

(** Modelled from the spec: [SessionEntry] of lib/types, with the fields
    of the object literal that Home builds for a pending message. *)
Record SessionEntry : Type := mkSessionEntry {
  se_type : string;
  se_uuid : string;
  se_parentUuid : option string;
  se_sessionId : string;
  se_timestamp : string;
  se_isSidechain : bool;
  se_role : string;
  se_content : string
}.

(** Modelled from the spec: [ConversationResponse] of lib/types, the
    answer [{status, messages, errorMessage}] of section 4.2. *)
Record ConversationResponse : Type := mkConversationResponse {
  cr_status : Status;
  cr_messages : list SessionEntry;
  cr_errorMessage : option string
}.

(** The [useState] cells of Home. *)
Record ClientState : Type := mkClientState {
  conversationId : option string;
  status : Status;
  serverMessages : list SessionEntry;
  pendingMessages : list PendingMessage;
  errorMessage : option string;
  isSubmitting : bool;
  refreshTrigger : Z;
  showWorkspace : bool
}.

Definition initial : ClientState :=
  {| conversationId := None; status := Idle; serverMessages := [];
     pendingMessages := []; errorMessage := None; isSubmitting := false;
     refreshTrigger := 0; showWorkspace := true |}.

(** A pending message as the session entry shown for it. *)
Definition pending_entry (server : list SessionEntry) (p : PendingMessage)
  : SessionEntry :=
  {| se_type := "user";
     se_uuid := pm_id p;
     se_parentUuid := se_uuid <$> last server;
     se_sessionId := "";
     se_timestamp := pm_timestamp p;
     se_isSidechain := false;
     se_role := "user";
     se_content := pm_content p |}.

(** Combined messages: server messages + pending messages. *)
Definition messages (st : ClientState) : list SessionEntry :=
  serverMessages st
    ++ map (pending_entry (serverMessages st)) (pendingMessages st).

(** What a [fetch] gives the code that awaits it. *)
Inductive Fetched (A E : Type) : Type :=
| FetchOk (data : A)
| FetchNotOk (error : E)
| FetchThrows (e : Thrown).
Arguments FetchOk {A E} data.
Arguments FetchNotOk {A E} error.
Arguments FetchThrows {A E} e.

(** The body of the interval callback, once its fetch has answered. *)
Definition poll_response (r : Fetched ConversationResponse unit)
    (st : ClientState) : ClientState :=
  match r with
  | FetchOk data =>
      {| conversationId := conversationId st;
         status := cr_status data;
         serverMessages := cr_messages data;
         pendingMessages :=
           if bool_decide (cr_status data = Completed)
              || bool_decide (cr_status data = Error)
           then [] else pendingMessages st;
         errorMessage := or_else (cr_errorMessage data) None;
         isSubmitting := isSubmitting st;
         refreshTrigger := refreshTrigger st + 1;
         showWorkspace := showWorkspace st |}
  | FetchNotOk _ => st
  | FetchThrows _ => st
  end.

(** [`pending-${Date.now()}`] *)
Definition pendingId (now : Z) : string := "pending-" +:+ pretty now.

(** handleSubmit up to its [fetch]: [now] is [Date.now()] and [iso] is
    [new Date().toISOString()]. *)
Definition submit_begin (now : Z) (iso content : string)
    (st : ClientState) : ClientState :=
  {| conversationId := conversationId st;
     status := status st;
     serverMessages := serverMessages st;
     pendingMessages :=
       pendingMessages st
         ++ [ {| pm_id := pendingId now; pm_content := content;
                 pm_timestamp := iso |} ];
     errorMessage := None;
     isSubmitting := true;
     refreshTrigger := refreshTrigger st;
     showWorkspace := showWorkspace st |}.

(** The [catch] and [finally] of handleSubmit. *)
Definition submit_catch (pid : string) (error : Thrown)
    (st : ClientState) : ClientState :=
  {| conversationId := conversationId st;
     status := status st;
     serverMessages := serverMessages st;
     pendingMessages :=
       filter (fun m => pm_id m <> pid) (pendingMessages st);
     errorMessage := Some (message_or error "Unknown error");
     isSubmitting := false;
     refreshTrigger := refreshTrigger st;
     showWorkspace := showWorkspace st |}.

(** handleSubmit after its [fetch]: a response that is ok stores the
    returned id and sets running; one that is not ok throws
    [new Error(error.error || "Failed to send message")]; whatever is
    thrown ends in the [catch]. The [finally] runs on both paths. *)
Definition submit_end (pid : string)
    (r : Fetched (option string) (option string))
    (st : ClientState) : ClientState :=
  match r with
  | FetchOk data_conversationId =>
      {| conversationId := data_conversationId;
         status := Running;
         serverMessages := serverMessages st;
         pendingMessages := pendingMessages st;
         errorMessage := errorMessage st;
         isSubmitting := false;
         refreshTrigger := refreshTrigger st;
         showWorkspace := showWorkspace st |}
  | FetchNotOk error =>
      submit_catch pid
        (ErrorObj
           (default "Failed to send message"
              (or_else error (Some "Failed to send message")))) st
  | FetchThrows e => submit_catch pid e st
  end.


(** handleSubmit as a whole: [during] is what the other handlers did to
    the state while the fetch was awaited. *)
Definition handleSubmit (now : Z) (iso content : string)
    (during : ClientState -> ClientState)
    (r : Fetched (option string) (option string))
    (st : ClientState) : ClientState :=
  submit_end (pendingId now) r (during (submit_begin now iso content st)).

(** *** The polling effect and its life cycle *)

(** A running [setInterval]: its period and the conversation its
    callback fetches. *)
Record Interval : Type := mkInterval {
  iv_period : Z;
  iv_conversationId : string
}.

(** The effect [useEffect(..., [conversationId, status])]: what it leaves
    running. Its cleanup clears that interval. *)
Definition poll_effect (st : ClientState) : option Interval :=
  match conversationId st with
  | Some cid =>
      if negb (truthy (Some cid)) || negb (bool_decide (status st = Running))
      then None
      else Some {| iv_period := 2000; iv_conversationId := cid |}
  | None => None
  end.

(** A mounted or unmounted Home: its state cells and the interval of
    the polling effect, if one is running. *)
Record Component : Type := mkComponent {
  state : ClientState;
  mounted : bool;
  pollInterval : option Interval
}.

Definition deps (st : ClientState) : option string * Status :=
  (conversationId st, status st).

Definition mount : Component :=
  {| state := initial; mounted := true; pollInterval := poll_effect initial |}.

(** A state update of a mounted component renders again; the effect is
    cleaned up and run again when one of its dependencies changed, and
    left alone otherwise. Updates of an unmounted component are dropped. *)
Definition rerender (c : Component) (st' : ClientState) : Component :=
  if mounted c then
    {| state := st';
       mounted := true;
       pollInterval :=
         if bool_decide (deps (state c) = deps st')
         then pollInterval c
         else poll_effect st' |}
  else c.

(** Unmounting runs the cleanup of the effect. *)
Definition unmount (c : Component) : Component :=
  {| state := state c; mounted := false; pollInterval := None |}.

Inductive Event : Type :=
| EvSubmitBegin (now : Z) (iso content : string)
| EvSubmitEnd (pid : string) (r : Fetched (option string) (option string))
| EvTick
| EvPollResponse (r : Fetched ConversationResponse unit)
| EvSetShowWorkspace (b : bool)
| EvUnmount.

(** One event of the event loop; [None] when the event cannot happen: a
    tick needs a running interval. A tick only starts a fetch, whose
    answer is an event of its own. *)
Definition handle (ev : Event) (c : Component) : option Component :=
  match ev with
  | EvSubmitBegin now iso content =>
      Some (rerender c (submit_begin now iso content (state c)))
  | EvSubmitEnd pid r => Some (rerender c (submit_end pid r (state c)))
  | EvTick =>
      match pollInterval c with
      | Some _ => Some c
      | None => None
      end
  | EvPollResponse r => Some (rerender c (poll_response r (state c)))
  | EvSetShowWorkspace b =>
      Some (rerender c
              {| conversationId := conversationId (state c);
                 status := status (state c);
                 serverMessages := serverMessages (state c);
                 pendingMessages := pendingMessages (state c);
                 errorMessage := errorMessage (state c);
                 isSubmitting := isSubmitting (state c);
                 refreshTrigger := refreshTrigger (state c);
                 showWorkspace := b |})
  | EvUnmount => Some (unmount c)
  end.

Inductive reachable : Component -> Prop :=
| reach_mount : reachable mount
| reach_step ev c c' :
    reachable c -> handle ev c = Some c' -> reachable c'.

(** The interval of a component is the one its effect leaves for the
    current state while mounted, and none after unmount. *)
Definition effect_in_sync (c : Component) : Prop :=
  pollInterval c = if mounted c then poll_effect (state c) else None.

(** Concrete states: one submit at millisecond 1000 still awaiting its
    fetch, and the answer of a poll after the agent has finished. *)
Definition first_in_flight : ClientState :=
  submit_begin 1000 "2026-01-01T00:00:01.000Z" "first" initial.

Definition first_pending : PendingMessage :=
  {| pm_id := pendingId 1000; pm_content := "first";
     pm_timestamp := "2026-01-01T00:00:01.000Z" |}.

Definition confirmed_first : SessionEntry :=
  {| se_type := "user"; se_uuid := "u1"; se_parentUuid := None;
     se_sessionId := "s1"; se_timestamp := "2026-01-01T00:00:01.100Z";
     se_isSidechain := false; se_role := "user"; se_content := "first" |}.

Definition completed_poll : ConversationResponse :=
  {| cr_status := Completed; cr_messages := [confirmed_first];
     cr_errorMessage := None |}.

Definition network_down : Fetched (option string) (option string) :=
  FetchThrows (ErrorObj "Failed to fetch").

(** Mounted, one submit accepted by the server for conversation c1. *)
Definition polling : Component :=
  rerender
    (rerender mount first_in_flight)
    (submit_end (pendingId 1000) (FetchOk (Some "c1")) first_in_flight).

(** [isLoading] and [hasMessages] of Home; the prompt form is disabled
    while status is running. *)
Definition isLoading (st : ClientState) : bool :=
  bool_decide (status st = Running) || isSubmitting st.


Definition form_disabled (st : ClientState) : bool :=
  bool_decide (status st = Running).

(** One turn of a conversation seen from a mounted Home: the submit, its
    accepted answer, a tick, and the answer of that poll. *)
Definition one_turn (now : Z) (iso content : string) (cid : option string)
    (data : ConversationResponse) : list Event :=
  [ EvSubmitBegin now iso content;
    EvSubmitEnd (pendingId now) (FetchOk cid);
    EvTick;
    EvPollResponse (FetchOk data) ].

Fixpoint run_events (evs : list Event) (c : Component) : option Component :=
  match evs with
  | [] => Some c
  | ev :: rest =>
      match handle ev c with
      | Some c' => run_events rest c'
      | None => None
      end
  end.

(** A poll answer while the agent is still running. *)
Definition running_poll : ConversationResponse :=
  {| cr_status := Running; cr_messages := [confirmed_first];
     cr_errorMessage := None |}.

End Client.

(** ** The volume helpers: buildFileTree of lib/moru.ts *)

Module Moru.

Inductive FileType : Type := TFile | TDirectory.

Global Instance FileType_eq_dec : EqDecision FileType.
Proof. solve_decision. Defined.

(** An entry as [volume.listFiles] of the provider returns it. *)
Record Listed : Type := mkListed {
  l_name : string;
  l_type : FileType;
  l_size : option Z;
  l_path : string
}.

(** [FileInfo]: [children] is absent on a node that was never given
    one. *)
Local Unset Elimination Schemes.
Inductive FileInfo : Type :=
| mkFileInfo (name : string) (type : FileType) (size : option Z)
    (path : string) (children : option (list FileInfo)).
Local Set Elimination Schemes.

Definition fi_name (n : FileInfo) : string :=
  match n with mkFileInfo name _ _ _ _ => name end.
Definition fi_type (n : FileInfo) : FileType :=
  match n with mkFileInfo _ type _ _ _ => type end.
Definition fi_size (n : FileInfo) : option Z :=
  match n with mkFileInfo _ _ size _ _ => size end.
Definition fi_path (n : FileInfo) : string :=
  match n with mkFileInfo _ _ _ path _ => path end.
Definition fi_children (n : FileInfo) : option (list FileInfo) :=
  match n with mkFileInfo _ _ _ _ children => children end.

Section Tree.

(** [String.prototype.localeCompare], negative, zero or positive. *)
Variable localeCompare : string -> string -> Z.

(** [volume.listFiles(path)] of the volume the tree is built from. *)
Variable listFiles : string -> outcome (list Listed).

(** The depth limit, a [number]. *)
Variable maxDepth : JsNumber.

(** The comparator: directories first, then alphabetically. *)
Definition compareNodes (a b : FileInfo) : Z :=
  if bool_decide (fi_type a = TDirectory)
     && negb (bool_decide (fi_type b = TDirectory)) then -1
  else if negb (bool_decide (fi_type a = TDirectory))
          && bool_decide (fi_type b = TDirectory) then 1
  else localeCompare (fi_name a) (fi_name b).

(** [Array.prototype.sort(compare)]: the language requires a stable
    sort; with a consistent comparator every stable sort returns the
    same array, the one a stable insertion sort builds. *)
Fixpoint sort_insert (compare : FileInfo -> FileInfo -> Z)
    (x : FileInfo) (l : list FileInfo) : list FileInfo :=
  match l with
  | [] => [x]
  | y :: l' =>
      if Z.leb (compare x y) 0 then x :: y :: l'
      else y :: sort_insert compare x l'
  end.

Fixpoint array_sort (compare : FileInfo -> FileInfo -> Z)
    (l : list FileInfo) : list FileInfo :=
  match l with
  | [] => []
  | x :: l' => sort_insert compare x (array_sort compare l')
  end.

(** [buildNode]: the recursion of the source goes on until
    [depth > maxDepth] holds or the directories end; [fuel] bounds the
    number of nested calls and [None] means it ran out. *)
Fixpoint buildNode (fuel : nat) (currentPath : string) (depth : Z)
  : option (list FileInfo) :=
  match fuel with
  | O => None
  | S fuel' =>
      if depth_gt depth maxDepth then Some []
      else
        match listFiles currentPath with
        | Throws _ => Some []
        | Ok files =>
            result ← mapM
              (fun f =>
                 match l_type f with
                 | TDirectory =>
                     children ← buildNode fuel' (l_path f) (depth_succ depth);
                     Some (mkFileInfo (l_name f) (l_type f) (l_size f)
                             (l_path f) (Some children))
                 | TFile =>
                     Some (mkFileInfo (l_name f) (l_type f) (l_size f)
                             (l_path f) None)
                 end) files;
            Some (array_sort compareNodes result)
        end
  end.

(** The node that the loop body of [buildNode] pushes for a listed
    entry, the nested calls having [fuel]. *)
Definition node_of (fuel : nat) (depth : Z) (f : Listed)
  : option FileInfo :=
  match l_type f with
  | TDirectory =>
      children ← buildNode fuel (l_path f) (depth_succ depth);
      Some (mkFileInfo (l_name f) (l_type f) (l_size f) (l_path f)
              (Some children))
  | TFile =>
      Some (mkFileInfo (l_name f) (l_type f) (l_size f) (l_path f) None)
  end.

(** [a] may stand before [b] in a sorted array. *)
Definition sibling_le (a b : FileInfo) : Prop := compareNodes a b <= 0.

(** [buildFileTree(volumeId, path, maxDepth)], for the volume that
    [Volume.get(volumeId)] returned: [buildNode(path, 0)], with [fuel]
    for its nested calls. *)
Definition buildFileTree (fuel : nat) (path : string)
  : option (list FileInfo) :=
  buildNode fuel path 0.

(** Nested calls that [buildNode path 0] can need when the depth test
    cuts the recursion at depth [c]: one per depth from 0 to [c]. *)
Definition enough_fuel (c : Z) : nat := S (Z.to_nat c).

End Tree.

(** The nodes [k] levels below a sibling list: the list itself for 0,
    the children of its nodes for 1, and so on. *)
Fixpoint nodes_at (k : nat) (l : list FileInfo) : list FileInfo :=
  match k with
  | O => l
  | S k' =>
      flat_map
        (fun n =>
           match fi_children n with
           | Some cs => nodes_at k' cs
           | None => []
           end) l
  end.

(** A sibling list with all directories before all files and, within
    each of the two groups, ascending by name under [localeCompare]. *)
Definition dirs_first_by_name (localeCompare : string -> string -> Z)
    (l : list FileInfo) : Prop :=
  forall i j a b,
    (i < j)%nat -> l !! i = Some a -> l !! j = Some b ->
    (fi_type b = TDirectory -> fi_type a = TDirectory)
    /\ (fi_type a = fi_type b ->
        localeCompare (fi_name a) (fi_name b) <= 0).

(** [localeCompare] orders strings: any two are comparable, and the
    order is transitive. *)
Definition consistent (localeCompare : string -> string -> Z) : Prop :=
  (forall a b, localeCompare a b <= 0 \/ localeCompare b a <= 0)
  /\ (forall a b c,
        localeCompare a b <= 0 -> localeCompare b c <= 0 ->
        localeCompare a c <= 0).

(** A comparison by code units, for concrete runs. *)
Definition ordinalCompare (a b : string) : Z :=
  match OrdersEx.String_as_OT.compare a b with
  | Lt => -1
  | Eq => 0
  | Gt => 1
  end.

Definition file (name path : string) (size : Z) : Listed :=
  {| l_name := name; l_type := TFile; l_size := Some size;
     l_path := path |}.
Definition dir (name path : string) : Listed :=
  {| l_name := name; l_type := TDirectory; l_size := None;
     l_path := path |}.

(** A volume with two directories and three files; every other path
    fails to list. *)
Definition small_volume (path : string) : outcome (list Listed) :=
  if String.eqb path "/" then
    Ok [ file "notes.md" "/notes.md" 12; dir "src" "/src";
         file "a.txt" "/a.txt" 3; dir "docs" "/docs" ]
  else if String.eqb path "/src" then
    Ok [ file "main.ts" "/src/main.ts" 40; dir "lib" "/src/lib" ]
  else if String.eqb path "/docs" then Ok []
  else Throws (ErrorObj "not found").

(** The tree of [small_volume]. *)
Definition small_tree : list FileInfo :=
  [ mkFileInfo "docs" TDirectory None "/docs" (Some []);
    mkFileInfo "src" TDirectory None "/src"
      (Some [ mkFileInfo "lib" TDirectory None "/src/lib" (Some []);
              mkFileInfo "main.ts" TFile (Some 40) "/src/main.ts" None ]);
    mkFileInfo "a.txt" TFile (Some 3) "/a.txt" None;
    mkFileInfo "notes.md" TFile (Some 12) "/notes.md" None ].

(** A volume in which every directory holds one more directory. *)
Definition bottomless (path : string) : outcome (list Listed) :=
  Ok [ dir "d" (path +:+ "/d") ].

(** The [FileInfo] that [listVolumeFiles] makes of a listed entry: no
    [children]. *)
Definition listed_info (f : Listed) : FileInfo :=
  mkFileInfo (l_name f) (l_type f) (l_size f) (l_path f) None.

(** [listVolumeFiles(volumeId, path)], for the volume that
    [Volume.get(volumeId)] returned: a listing that throws gives []. *)
Definition listVolumeFiles (listFiles : string -> outcome (list Listed))
    (path : string) : list FileInfo :=
  match listFiles path with
  | Ok files => map listed_info files
  | Throws _ => []
  end.

(** A node without its [children]. *)
Definition strip_children (n : FileInfo) : FileInfo :=
  mkFileInfo (fi_name n) (fi_type n) (fi_size n) (fi_path n) None.

(** readVolumeFile, "Ensure path is absolute":
    [path.startsWith("/") ? path : `/${path}`]. *)
Definition absolutePath (path : string) : string :=
  if String.prefix "/" path then path else "/" +:+ path.

End Moru.

(** ** Creating a sandbox: createSandbox of lib/moru.ts *)

Module Provider.

(** The two variables of [process.env] that createSandbox reads. *)
Record ProcessEnv : Type := mkProcessEnv {
  BASE_URL : option string;
  ANTHROPIC_API_KEY : option string
}.

Definition TEMPLATE_NAME : string := "hackathon-ts-agent".

(** The options of [Sandbox.create]; [envs] in the order of the object
    literal. *)
Record SandboxOpts : Type := mkSandboxOpts {
  so_volumeId : string;
  so_volumeMountPath : string;
  so_envs : list (string * string);
  so_timeoutMs : Z
}.

(** The options of [sandbox.commands.run]. *)
Record CommandOpts : Type := mkCommandOpts {
  co_background : bool;
  co_stdin : bool;
  co_cwd : string
}.

(** A call to the provider: a sandbox is named by the handle that
    [Sandbox.create] returned. *)
Inductive SdkCall : Type :=
| SandboxCreate (template : string) (opts : SandboxOpts)
| CommandsRun (sandbox : string) (command : string) (opts : CommandOpts).

(** What the provider answers to the two calls. *)
Record Sdk : Type := mkSdk {
  create_answer : outcome string;
  run_answer : outcome Z
}.

(** The calls made, in order, and the completion of createSandbox: the
    sandbox and the pid of the command handle. *)
Definition createSandbox (env : ProcessEnv) (sdk : Sdk)
    (volumeId conversationId : string) (sessionId : option string)
  : list SdkCall * outcome (string * Z) :=
  let baseUrl :=
    default "http://localhost:3000"
      (or_else (BASE_URL env) (Some "http://localhost:3000")) in
  match ANTHROPIC_API_KEY env with
  | Some anthropicApiKey =>
      if negb (truthy (Some anthropicApiKey)) then
        ([], Throws (ErrorObj
                       "ANTHROPIC_API_KEY environment variable is not set"))
      else
        let create :=
          SandboxCreate TEMPLATE_NAME
            {| so_volumeId := volumeId;
               so_volumeMountPath := "/workspace/data";
               so_envs :=
                 [ ("ANTHROPIC_API_KEY", anthropicApiKey);
                   ("CALLBACK_URL",
                    baseUrl +:+ "/api/conversations/" +:+ conversationId
                      +:+ "/status");
                   ("RESUME_SESSION_ID",
                    default "" (or_else sessionId (Some ""))) ];
               so_timeoutMs := 30 * 60 * 1000 |} in
        match create_answer sdk with
        | Throws e => ([create], Throws e)
        | Ok sandbox =>
            let run :=
              CommandsRun sandbox "node /app/agent.js"
                {| co_background := true; co_stdin := true;
                   co_cwd := "/workspace" |} in
            match run_answer sdk with
            | Throws e => ([create; run], Throws e)
            | Ok pid => ([create; run], Ok (sandbox, pid))
            end
        end
  | None =>
      ([], Throws (ErrorObj
                     "ANTHROPIC_API_KEY environment variable is not set"))
  end.

Definition is_run (c : SdkCall) : bool :=
  match c with
  | CommandsRun _ _ _ => true
  | SandboxCreate _ _ => false
  end.

(** A deployment with a key and no BASE_URL, and a provider that
    answers both calls. *)
Definition keyed : ProcessEnv :=
  {| BASE_URL := None; ANTHROPIC_API_KEY := Some "sk-test" |}.

Definition answering : Sdk :=
  {| create_answer := Ok "sb1"; run_answer := Ok 42 |}.

End Provider.

(** * Properties *)

(** ** The status callback route *)

Module ServerSpec.
Import Server.

Ltac unfold_route :=
  unfold POST, POST_try, request_json, findUnique, update, killSandbox,
    try_catch, Sandbox_kill, mbind, M_bind, bind, mret, M_ret, ret, throw.

Lemma killSandbox_returns env sandboxId w :
  killSandbox env sandboxId w
  = ({| db := db w; kills := kills w ++ [sandboxId] |}, Ok tt).
Proof.
  unfold killSandbox, try_catch, Sandbox_kill, ret.
  destruct (kill_fault env sandboxId); reflexivity.
Qed.

(** What the route does on an existing conversation when the store
    answers, whatever the provider does. *)
Lemma POST_existing env id r w c :
  db w !! id = Some c ->
  store_ok env ->
  POST env id (Ok r) w
  = ({| db := <[id := callback_row r c]> (db w);
        kills := kills w ++ cleanup_of c |}, json_success).
Proof.
  intros Hc [Hf Hu]. unfold cleanup_of.
  unfold_route. rewrite Hf. simpl. rewrite Hc, Hu. simpl.
  rewrite Hc. simpl.
  destruct (conv_sandboxId c) as [sb|]; simpl.
  - destruct (negb (String.eqb sb "")); simpl.
    + destruct (kill_fault env sb); reflexivity.
    + rewrite app_nil_r. reflexivity.
  - rewrite app_nil_r. reflexivity.
Qed.

(** A call that answers success found the row and updated it. *)
Lemma POST_success_inv env id r w :
  (POST env id (Ok r) w).2 = json_success ->
  exists c, db w !! id = Some c /\ store_ok env.
Proof.
  unfold_route.
  destruct (findUnique_fault env) as [e|] eqn:Hf; simpl; [discriminate|].
  destruct (db w !! id) as [c|] eqn:Hc; simpl; [|discriminate].
  destruct (update_fault env) as [e|] eqn:Hu; simpl; [discriminate|].
  rewrite Hc. simpl. intros _. exists c. repeat split; assumption.
Qed.

(** A call that does not answer success left the store as it was. *)
Lemma POST_failed_db env id body w :
  (POST env id body w).2 <> json_success ->
  db (POST env id body w).1 = db w.
Proof.
  unfold_route. destruct body as [r|e]; simpl; [|reflexivity].
  destruct (findUnique_fault env); simpl; [reflexivity|].
  destruct (db w !! id) as [c|] eqn:Hc; simpl; [|reflexivity].
  destruct (update_fault env); simpl; [reflexivity|].
  rewrite Hc. simpl. intros H. exfalso. apply H.
  destruct (conv_sandboxId c) as [sb|]; simpl; [|reflexivity].
  destruct (negb (String.eqb sb "")); simpl; [|reflexivity].
  destruct (kill_fault env sb); reflexivity.
Qed.

Lemma reachable_row id r w :
  callback_reachable id r w ->
  exists c0, db w !! id = Some (callback_row r c0).
Proof.
  induction 1 as [env r w Hs | env r0 r w _ _ Hs | env r0 body w _ IH Hf].
  - destruct (POST_success_inv _ _ _ _ Hs) as (c & Hc & Hok).
    rewrite (POST_existing _ _ _ _ _ Hc Hok). simpl.
    exists c. apply lookup_insert_eq.
  - destruct (POST_success_inv _ _ _ _ Hs) as (c & Hc & Hok).
    rewrite (POST_existing _ _ _ _ _ Hc Hok). simpl.
    exists c. apply lookup_insert_eq.
  - rewrite (POST_failed_db _ _ _ _ Hf). exact IH.
Qed.

End ServerSpec.

Module ServerClaims.
Import Server ServerSpec.

Lemma running_world_row : db running_world !! "c1" = Some running_row.
Proof. apply lookup_singleton_eq. Qed.

Lemma calm_ok : store_ok calm.
Proof. split; reflexivity. Qed.

Lemma kill_throws_ok : store_ok kill_throws.
Proof. split; reflexivity. Qed.

Lemma POST_running_world env r :
  store_ok env ->
  POST env "c1" (Ok r) running_world
  = ({| db := <[ "c1" := callback_row r running_row ]> (db running_world);
        kills := [ "sb1" ] |}, json_success).
Proof.
  intros Hok.
  rewrite (POST_existing _ _ _ _ _ running_world_row Hok). reflexivity.
Qed.

Lemma kills_during_app w l d :
  kills_during w {| db := d; kills := kills w ++ l |} = l.
Proof. unfold kills_during. simpl. apply drop_app_length. Qed.

(** C1, as stated, fails: an error callback that carries no errorMessage
    leaves a reachable row with status = error and errorMessage = null. *)
Lemma C1_error_without_message :
  callback_reachable "c1" bare_error
    (POST calm "c1" (Ok bare_error) running_world).1
  /\ row_after "c1" (POST calm "c1" (Ok bare_error) running_world)
     = Some (callback_row bare_error running_row)
  /\ ~ lifecycle_invariant (callback_row bare_error running_row).
Proof.
  split; [|split].
  - apply cr_first. rewrite (POST_running_world _ _ calm_ok). reflexivity.
  - unfold row_after. rewrite (POST_running_world _ _ calm_ok). simpl.
    apply lookup_insert_eq.
  - intros [Herr _]. destruct (Herr eq_refl) as [_ Hmsg].
    apply Hmsg. reflexivity.
Qed.

(** C1, amended: on every row reachable by status callbacks the
    sandboxId is null, whatever the status, so status = error and
    status = completed both imply sandboxId = null; the status is the
    one of the last callback that updated the row and the errorMessage
    is the one that callback supplied, null when it supplied none or an
    empty one. *)
Theorem C1_reachable_rows id r w :
  callback_reachable id r w ->
  exists c,
    db w !! id = Some c
    /\ conv_sandboxId c = None
    /\ conv_status c = req_status r
    /\ conv_errorMessage c = or_else (req_errorMessage r) None
    /\ (conv_status c = Error -> conv_sandboxId c = None)
    /\ (conv_status c = Completed -> conv_sandboxId c = None)
    /\ (truthy (req_errorMessage r) = true -> conv_errorMessage c <> None)
    /\ (truthy (req_errorMessage r) = false -> conv_errorMessage c = None).
Proof.
  intros Hr. destruct (reachable_row _ _ _ Hr) as [c0 Hc0].
  exists (callback_row r c0). split; [exact Hc0|].
  unfold callback_row, apply_data, or_else; simpl.
  repeat split; try reflexivity.
  - intros Ht. rewrite Ht. destruct (req_errorMessage r); [discriminate|].
    discriminate Ht.
  - intros Ht. rewrite Ht. reflexivity.
Qed.

Lemma C1_reachable_rows_witness :
  callback_reachable "c1" error_boom
    (POST kill_throws "c1" (Ok error_boom) running_world).1
  /\ exists c,
       db (POST kill_throws "c1" (Ok error_boom) running_world).1 !! "c1"
       = Some c
       /\ conv_sandboxId c = None
       /\ conv_status c = Error
       /\ conv_errorMessage c = Some "boom".
Proof.
  assert (Hr : callback_reachable "c1" error_boom
                 (POST kill_throws "c1" (Ok error_boom) running_world).1).
  { apply cr_first.
    rewrite (POST_running_world _ _ kill_throws_ok). reflexivity. }
  split; [exact Hr|].
  destruct (C1_reachable_rows _ _ _ Hr) as (c & Hc & Hsb & Hst & Hmsg & _).
  exists c. repeat split; assumption.
Defined.




(** C4, as stated, fails: of two callbacks in a row the second finds the
    sandboxId already cleared by the first and attempts no termination. *)
Lemma C4_second_call_attempts_nothing :
  ~ two_callbacks_as_stated calm calm "c1" completed_s2 error_boom
      running_world.
Proof.
  unfold two_callbacks_as_stated.
  rewrite (POST_running_world _ _ calm_ok). cbv zeta.
  intros (_ & _ & Hk & _). apply Hk. clear Hk.
  rewrite (POST_existing calm "c1" error_boom _
             (callback_row completed_s2 running_row)
             (lookup_insert_eq _ _ _) calm_ok).
  reflexivity.
Qed.

(** C4, amended: after two callbacks in a row with different terminal
    statuses the row carries the status of the second; each call
    attempts a termination exactly for the non-empty sandboxId of the
    row it read, so the first attempts at most one and the second, which
    reads the row the first has cleared, attempts none; both calls
    answer success whatever the provider does with the attempts. *)
Theorem C4_last_write_wins env1 env2 id r1 r2 w c :
  db w !! id = Some c ->
  store_ok env1 -> store_ok env2 ->
  terminal (req_status r1) = true ->
  terminal (req_status r2) = true ->
  req_status r1 <> req_status r2 ->
  let p1 := POST env1 id (Ok r1) w in
  let p2 := POST env2 id (Ok r2) p1.1 in
  conv_status <$> row_after id p2 = Some (req_status r2)
  /\ conv_status <$> row_after id p2 <> Some (req_status r1)
  /\ kills_during w p1.1 = cleanup_of c
  /\ kills_during p1.1 p2.1 = []
  /\ p1.2 = json_success
  /\ p2.2 = json_success.
Proof.
  intros Hc Hok1 Hok2 _ _ Hne p1 p2. subst p1 p2.
  rewrite (POST_existing _ _ _ _ _ Hc Hok1). cbn [fst snd].
  rewrite (POST_existing env2 id r2 _ (callback_row r1 c)
             (lookup_insert_eq _ _ _) Hok2).
  unfold row_after. cbn [fst snd db]. rewrite lookup_insert_eq.
  cbn [fmap option_fmap option_map]. repeat split.
  - intros [= H]. apply Hne. symmetry. exact H.
  - apply kills_during_app.
  - apply (kills_during_app
             {| db := <[id:=callback_row r1 c]> (db w);
                kills := kills w ++ cleanup_of c |} []).
Qed.

Lemma C4_last_write_wins_witness :
  db running_world !! "c1" = Some running_row
  /\ store_ok kill_throws
  /\ terminal (req_status completed_s2) = true
  /\ terminal (req_status error_boom) = true
  /\ req_status completed_s2 <> req_status error_boom
  /\ conv_status <$>
       row_after "c1"
         (POST kill_throws "c1" (Ok error_boom)
            (POST kill_throws "c1" (Ok completed_s2) running_world).1)
     = Some Error
  /\ (POST kill_throws "c1" (Ok error_boom)
        (POST kill_throws "c1" (Ok completed_s2) running_world).1).2
     = json_success.
Proof.
  assert (Hne : req_status completed_s2 <> req_status error_boom)
    by discriminate.
  pose proof (C4_last_write_wins kill_throws kill_throws "c1"
                completed_s2 error_boom running_world running_row
                running_world_row kill_throws_ok kill_throws_ok
                eq_refl eq_refl Hne) as H.
  cbv zeta in H. destruct H as (Hst & _ & _ & _ & _ & Hresp).
  repeat split; try assumption; try reflexivity.
Defined.

(** C5: killSandbox never throws, and a status callback on an existing
    conversation whose record update went through answers
    {success:true} with status 200, whatever [Sandbox.kill] does, also
    when it throws. *)
Theorem C5_success_despite_cleanup env id r w c :
  db w !! id = Some c ->
  store_ok env ->
  (POST env id (Ok r) w).2 = json_success
  /\ resp_body (POST env id (Ok r) w).2 = BodySuccess true
  /\ resp_code (POST env id (Ok r) w).2 = 200
  /\ row_after id (POST env id (Ok r) w) = Some (callback_row r c)
  /\ forall sandboxId w0, (killSandbox env sandboxId w0).2 = Ok tt.
Proof.
  intros Hc Hok. unfold row_after.
  rewrite (POST_existing _ _ _ _ _ Hc Hok). cbn [fst snd db].
  repeat split.
  - apply lookup_insert_eq.
  - intros sb w0. rewrite killSandbox_returns. reflexivity.
Qed.

Lemma C5_success_despite_cleanup_witness :
  db running_world !! "c1" = Some running_row
  /\ store_ok kill_throws
  /\ kill_fault kill_throws "sb1" = Some (ErrorObj "sandbox not found")
  /\ kills_during running_world
       (POST kill_throws "c1" (Ok completed_s2) running_world).1
     = [ "sb1" ]
  /\ (POST kill_throws "c1" (Ok completed_s2) running_world).2
     = json_success.
Proof.
  split; [exact running_world_row|]. split; [exact kill_throws_ok|].
  split; [reflexivity|]. split.
  - rewrite (POST_running_world _ _ kill_throws_ok). reflexivity.
  - apply (C5_success_despite_cleanup kill_throws "c1" completed_s2
             running_world running_row running_world_row kill_throws_ok).
Defined.

End ServerClaims.

(** ** The client lifecycle controller *)

Module ClientClaims.
Import Client.

(** C3: when a poll answers with a terminal status, the pending list
    becomes empty and the displayed sequence is exactly the message list
    of that answer, entry for entry. *)
Theorem C3_terminal_poll_reconciles st data :
  pendingMessages st <> [] ->
  terminal (cr_status data) = true ->
  pendingMessages (poll_response (FetchOk data) st) = []
  /\ serverMessages (poll_response (FetchOk data) st) = cr_messages data
  /\ messages (poll_response (FetchOk data) st) = cr_messages data
  /\ status (poll_response (FetchOk data) st) = cr_status data.
Proof.
  intros _ Ht.
  assert (Hp : pendingMessages (poll_response (FetchOk data) st) = []).
  { simpl. destruct (cr_status data); try discriminate Ht; reflexivity. }
  repeat split; try assumption; try reflexivity.
  unfold messages. rewrite Hp. simpl. apply app_nil_r.
Qed.

Lemma C3_terminal_poll_reconciles_witness :
  pendingMessages first_in_flight <> []
  /\ terminal (cr_status completed_poll) = true
  /\ pendingMessages (poll_response (FetchOk completed_poll) first_in_flight)
     = []
  /\ messages (poll_response (FetchOk completed_poll) first_in_flight)
     = [confirmed_first].
Proof.
  assert (Hne : pendingMessages first_in_flight <> []) by discriminate.
  split; [exact Hne|]. split; [reflexivity|].
  destruct (C3_terminal_poll_reconciles first_in_flight completed_poll
              Hne eq_refl) as (Hp & _ & Hm & _).
  split; assumption.
Defined.

(** C7: the displayed sequence is the server messages in their order
    followed by the pending messages in submission order, each shown as
    a user entry with its synthetic id and content; the first positions
    are the server messages, so no pending message comes before one. *)
Theorem C7_displayed_sequence st :
  messages st
  = serverMessages st
      ++ map (pending_entry (serverMessages st)) (pendingMessages st)
  /\ take (length (serverMessages st)) (messages st) = serverMessages st
  /\ map se_uuid (drop (length (serverMessages st)) (messages st))
     = map pm_id (pendingMessages st)
  /\ map se_content (drop (length (serverMessages st)) (messages st))
     = map pm_content (pendingMessages st)
  /\ (forall i, (i < length (serverMessages st))%nat ->
        messages st !! i = serverMessages st !! i)
  /\ (forall j,
        messages st !! (length (serverMessages st) + j)%nat
        = pending_entry (serverMessages st) <$> pendingMessages st !! j).
Proof.
  unfold messages. split; [reflexivity|].
  split; [apply take_app_length|].
  rewrite drop_app_length.
  split; [|split; [|split]].
  - rewrite map_map. reflexivity.
  - rewrite map_map. reflexivity.
  - intros i Hi. apply lookup_app_l. exact Hi.
  - intros j. rewrite lookup_app_r by lia.
    replace (length (serverMessages st) + j - length (serverMessages st))%nat
      with j by lia.
    apply list_lookup_fmap.
Qed.




(** C6 at two submits within one millisecond: the first is still
    awaiting its fetch when the second, with the same synthetic id,
    fails; its [catch] removes both pending messages, its own and the
    one of the first submit, where the property keeps the latter. *)
Theorem C6_same_millisecond_collision :
  let before := first_in_flight in
  let after :=
    handleSubmit 1000 "2026-01-01T00:00:01.000Z" "second" id
      network_down before in
  pendingMessages before = [first_pending]
  /\ pendingMessages after = []
  /\ pendingMessages after <> pendingMessages before
  /\ serverMessages after = serverMessages before
  /\ errorMessage after = Some "Failed to fetch".
Proof.
  cbv zeta. repeat split; try reflexivity.
  vm_compute. discriminate.
Qed.

(** *** The polling effect *)

Lemma poll_effect_deps st st' :
  deps st = deps st' -> poll_effect st = poll_effect st'.
Proof.
  unfold deps, poll_effect. intros [= Hc Hs]. rewrite Hc, Hs. reflexivity.
Qed.

Lemma rerender_in_sync c st' :
  effect_in_sync c -> effect_in_sync (rerender c st').
Proof.
  unfold effect_in_sync, rerender. intros Hc.
  destruct (mounted c) eqn:Hm; simpl; [|rewrite Hm; exact Hc].
  case_bool_decide as Hd; [|reflexivity].
  rewrite Hc. apply poll_effect_deps. exact Hd.
Qed.

Lemma reachable_in_sync c : reachable c -> effect_in_sync c.
Proof.
  induction 1 as [|ev c c' _ IH Hstep]; [reflexivity|].
  destruct ev; simpl in Hstep.
  - injection Hstep as <-. apply rerender_in_sync, IH.
  - injection Hstep as <-. apply rerender_in_sync, IH.
  - destruct (pollInterval c); [|discriminate].
    injection Hstep as <-. exact IH.
  - injection Hstep as <-. apply rerender_in_sync, IH.
  - injection Hstep as <-. apply rerender_in_sync, IH.
  - injection Hstep as <-. reflexivity.
Qed.

Lemma poll_effect_active st :
  poll_effect st <> None
  <-> truthy (conversationId st) = true /\ status st = Running.
Proof.
  unfold poll_effect.
  destruct (conversationId st) as [cid|]; [|simpl; split; [congruence|]].
  - destruct (truthy (Some cid)); simpl.
    + case_bool_decide as Hs; simpl; split; try congruence.
      * intros _. split; [reflexivity|exact Hs].
      * intros [_ H]. contradiction.
    + split; [congruence|]. intros [H _]. discriminate H.
  - intros [H _]. discriminate H.
Qed.

(** C8: in every reachable state of Home an interval is running
    exactly when the component is mounted, a conversationId is set and
    status = running; a running interval has period 2000 ms and polls
    that conversation; a poll tick can only happen in such a state, so
    none is scheduled once status is not running or after unmount; and
    unmounting clears the interval. *)
Theorem C8_polling_exactly_while_running c :
  reachable c ->
  (pollInterval c <> None
   <-> mounted c = true
       /\ truthy (conversationId (state c)) = true
       /\ status (state c) = Running)
  /\ (forall iv, pollInterval c = Some iv ->
        iv_period iv = 2000
        /\ conversationId (state c) = Some (iv_conversationId iv))
  /\ (forall c', handle EvTick c = Some c' ->
        mounted c = true /\ status (state c) = Running)
  /\ (status (state c) <> Running -> handle EvTick c = None)
  /\ pollInterval (unmount c) = None
  /\ forall ev c', handle ev (unmount c) = Some c' -> pollInterval c' = None.
Proof.
  intros Hr. pose proof (reachable_in_sync c Hr) as Hsync.
  unfold effect_in_sync in Hsync.
  assert (Hiff : pollInterval c <> None
                 <-> mounted c = true
                     /\ truthy (conversationId (state c)) = true
                     /\ status (state c) = Running).
  { rewrite Hsync. destruct (mounted c).
    - rewrite poll_effect_active. tauto.
    - split; [congruence|]. intros [H _]. discriminate H. }
  split; [exact Hiff|]. split; [|split; [|split; [|split]]].
  - intros iv Hiv. rewrite Hsync in Hiv.
    destruct (mounted c); [|discriminate].
    unfold poll_effect in Hiv.
    destruct (conversationId (state c)) as [cid|]; [|discriminate].
    destruct (negb (truthy (Some cid))
              || negb (bool_decide (status (state c) = Running)));
      [discriminate|].
    injection Hiv as <-. split; reflexivity.
  - intros c' Htick. simpl in Htick.
    assert (Hn : pollInterval c <> None).
    { intros E. rewrite E in Htick. discriminate Htick. }
    apply Hiff in Hn. tauto.
  - intros Hs. simpl. clear Hsync. revert Hiff.
    destruct (pollInterval c) as [iv|]; [|reflexivity].
    intros [Hiff _]. destruct Hiff as (_ & _ & Hrun); [discriminate|].
    contradiction.
  - reflexivity.
  - intros ev c' Hev. destruct ev; simpl in Hev;
      try discriminate; injection Hev as <-; reflexivity.
Qed.

Lemma polling_reachable : reachable polling.
Proof.
  unfold polling.
  eapply (reach_step (EvSubmitEnd (pendingId 1000) (FetchOk (Some "c1")))
            (rerender mount first_in_flight)); [|reflexivity].
  eapply (reach_step (EvSubmitBegin 1000 "2026-01-01T00:00:01.000Z" "first")
            mount); [apply reach_mount|reflexivity].
Defined.

Lemma C8_polling_exactly_while_running_witness :
  reachable polling
  /\ pollInterval polling
     = Some {| iv_period := 2000; iv_conversationId := "c1" |}
  /\ (pollInterval polling <> None
      <-> mounted polling = true
          /\ truthy (conversationId (state polling)) = true
          /\ status (state polling) = Running)
  /\ pollInterval
       (rerender polling
          (poll_response (FetchOk completed_poll) (state polling)))
     = None.
Proof.
  split; [exact polling_reachable|]. split; [reflexivity|].
  split; [|reflexivity].
  apply (C8_polling_exactly_while_running polling polling_reachable).
Defined.

End ClientClaims.

(** ** The file tree *)

Module MoruClaims.
Import Moru.

(** *** The depth test on numbers *)

Lemma depth_gt_floor depth q :
  depth_gt depth (Finite q) = Z.ltb (Qround.Qfloor q) depth.
Proof.
  unfold depth_gt.
  destruct (Z.ltb_spec (Qround.Qfloor q) depth) as [Hlt|Hle].
  - apply negb_true_iff. apply not_true_is_false. intros Hb.
    apply QArith_base.Qle_bool_iff in Hb.
    apply Qround.Qfloor_resp_le in Hb. rewrite Qround.Qfloor_Z in Hb. lia.
  - apply negb_false_iff. apply QArith_base.Qle_bool_iff.
    eapply QArith_base.Qle_trans; [|apply Qround.Qfloor_le].
    rewrite <- QArith_base.Zle_Qle. exact Hle.
Qed.

Lemma cut_depth_spec maxDepth c :
  cut_depth maxDepth = Some c ->
  0 <= c <= MAX_EXACT
  /\ forall depth, 0 <= depth -> (depth_gt depth maxDepth = true <-> c <= depth).
Proof.
  destruct maxDepth as [| | |q]; simpl; try discriminate.
  - intros [= <-]. split; [unfold MAX_EXACT; lia|].
    intros depth Hd. split; [intros _; exact Hd|reflexivity].
  - destruct (Z.leb_spec (Z.max 0 (Qround.Qfloor q + 1)) MAX_EXACT)
      as [Hle|]; [|discriminate].
    intros [= <-]. split; [lia|].
    intros depth Hd.
    change (negb (QArith_base.Qle_bool (QArith_base.inject_Z depth) q))
      with (depth_gt depth (Finite q)).
    rewrite depth_gt_floor, Z.ltb_lt. lia.
Qed.

Lemma cut_depth_none maxDepth :
  cut_depth maxDepth = None ->
  forall depth, depth <= MAX_EXACT -> depth_gt depth maxDepth = false.
Proof.
  destruct maxDepth as [| | |q]; simpl; try discriminate; try reflexivity.
  destruct (Z.leb_spec (Z.max 0 (Qround.Qfloor q + 1)) MAX_EXACT)
    as [|Hgt]; [discriminate|].
  intros _ depth Hd.
  change (negb (QArith_base.Qle_bool (QArith_base.inject_Z depth) q))
    with (depth_gt depth (Finite q)).
  rewrite depth_gt_floor, Z.ltb_ge. unfold MAX_EXACT in *. lia.
Qed.

Lemma depth_succ_below depth :
  depth < MAX_EXACT -> depth_succ depth = depth + 1.
Proof.
  unfold depth_succ. intros H.
  destruct (Z.ltb_spec depth MAX_EXACT); [reflexivity|lia].
Qed.

Lemma depth_succ_range depth :
  0 <= depth <= MAX_EXACT -> 0 <= depth_succ depth <= MAX_EXACT.
Proof.
  unfold depth_succ. intros H.
  destruct (Z.ltb_spec depth MAX_EXACT); lia.
Qed.

Section Build.

Variable localeCompare : string -> string -> Z.
Variable listFiles : string -> outcome (list Listed).
Variable maxDepth : JsNumber.

Abbreviation buildNode :=
  (Moru.buildNode localeCompare listFiles maxDepth).
Abbreviation compareNodes := (Moru.compareNodes localeCompare).
Abbreviation node_of := (Moru.node_of localeCompare listFiles maxDepth).
Abbreviation sibling_le := (Moru.sibling_le localeCompare).

Lemma buildNode_unfold fuel currentPath depth :
  buildNode (S fuel) currentPath depth
  = if depth_gt depth maxDepth then Some []
    else match listFiles currentPath with
         | Throws _ => Some []
         | Ok files =>
             result ← mapM (node_of fuel depth) files;
             Some (array_sort compareNodes result)
         end.
Proof. reflexivity. Qed.

Lemma buildNode_beyond fuel currentPath depth :
  depth_gt depth maxDepth = true ->
  buildNode (S fuel) currentPath depth = Some [].
Proof. intros Hd. rewrite buildNode_unfold, Hd. reflexivity. Qed.

(** Case analysis of a call that returned. *)
Lemma buildNode_inv fuel currentPath depth t :
  buildNode fuel currentPath depth = Some t ->
  t = []
  \/ exists fuel' files result,
       fuel = S fuel'
       /\ depth_gt depth maxDepth = false
       /\ listFiles currentPath = Ok files
       /\ Forall2 (fun f n => node_of fuel' depth f = Some n) files result
       /\ t = array_sort compareNodes result.
Proof.
  destruct fuel as [|fuel']; [discriminate|].
  rewrite buildNode_unfold.
  destruct (depth_gt depth maxDepth) eqn:Hle;
    [intros [= <-]; left; reflexivity|].
  destruct (listFiles currentPath) as [files|e] eqn:Hl;
    [|intros [= <-]; left; reflexivity].
  destruct (mapM (node_of fuel' depth) files) as [result|] eqn:Hm;
    simpl; [|discriminate].
  intros [= <-]. right. exists fuel', files, result.
  repeat split; try assumption; try reflexivity.
  apply mapM_Some_1. exact Hm.
Qed.

Lemma node_of_inv fuel depth f n :
  node_of fuel depth f = Some n ->
  fi_name n = l_name f /\ fi_type n = l_type f
  /\ (l_type f = TFile /\ fi_children n = None
      \/ exists cs,
           l_type f = TDirectory /\ fi_children n = Some cs
           /\ buildNode fuel (l_path f) (depth_succ depth) = Some cs).
Proof.
  unfold Moru.node_of. destruct (l_type f) eqn:Ht.
  - intros [= <-]. simpl. repeat split; try assumption.
    left. split; reflexivity.
  - destruct (buildNode fuel (l_path f) (depth_succ depth)) as [cs|] eqn:Hb;
      simpl; [|discriminate].
    intros [= <-]. simpl. repeat split; try assumption.
    right. exists cs. repeat split; reflexivity.
Qed.

(** *** Termination: enough fuel gives the result *)

Lemma buildNode_returns c :
  cut_depth maxDepth = Some c ->
  forall fuel currentPath depth,
    0 <= depth ->
    (Z.to_nat (c - depth) < fuel)%nat ->
    is_Some (buildNode fuel currentPath depth).
Proof.
  intros Hc. destruct (cut_depth_spec _ _ Hc) as [Hrange Hcut].
  induction fuel as [|fuel IH]; intros currentPath depth Hd Hf; [lia|].
  rewrite buildNode_unfold.
  destruct (depth_gt depth maxDepth) eqn:Hgt; [eexists; reflexivity|].
  assert (Hlt : depth < c).
  { destruct (Z.lt_ge_cases depth c) as [H|H]; [exact H|].
    apply (Hcut depth Hd) in H. congruence. }
  destruct (listFiles currentPath) as [files|e]; [|eexists; reflexivity].
  assert (Hall : is_Some (mapM (node_of fuel depth) files)).
  { apply mapM_is_Some_2, Forall_forall. intros f _. simpl.
    unfold Moru.node_of. destruct (l_type f); [eexists; reflexivity|].
    rewrite depth_succ_below by lia.
    destruct (IH (l_path f) (depth + 1)) as [cs Hcs]; [lia|lia|].
    rewrite Hcs. eexists; reflexivity. }
  destruct Hall as [result Hresult]. rewrite Hresult.
  eexists; reflexivity.
Qed.

Lemma buildNode_more_fuel fuel :
  forall currentPath depth t extra,
    buildNode fuel currentPath depth = Some t ->
    buildNode (fuel + extra) currentPath depth = Some t.
Proof.
  induction fuel as [|fuel IH]; intros currentPath depth t extra;
    [discriminate|].
  change (S fuel + extra)%nat with (S (fuel + extra)).
  rewrite !buildNode_unfold.
  destruct (depth_gt depth maxDepth); [trivial|].
  destruct (listFiles currentPath) as [files|e]; [|trivial].
  destruct (mapM (node_of fuel depth) files) as [result|] eqn:Hm;
    simpl; [|discriminate].
  intros [= <-].
  assert (Hm' : mapM (node_of (fuel + extra) depth) files = Some result).
  { apply mapM_Some_2. apply mapM_Some_1 in Hm.
    eapply Forall2_impl; [exact Hm|]. intros f n. simpl.
    unfold Moru.node_of. destruct (l_type f); [trivial|].
    destruct (buildNode fuel (l_path f) (depth_succ depth)) as [cs|] eqn:Hb;
      simpl; [|discriminate].
    rewrite (IH _ _ _ extra Hb). trivial. }
  rewrite Hm'. reflexivity.
Qed.

(** *** Sorting keeps the elements *)

Lemma Forall_sort_insert (P : FileInfo -> Prop) compare x l :
  P x -> Forall P l -> Forall P (sort_insert compare x l).
Proof.
  intros Hx Hl. induction Hl as [|y l Hy Hl IH]; simpl.
  - repeat constructor. exact Hx.
  - destruct (Z.leb (compare x y) 0); repeat constructor; assumption.
Qed.

Lemma Forall_array_sort (P : FileInfo -> Prop) compare l :
  Forall P l -> Forall P (array_sort compare l).
Proof.
  induction 1 as [|x l Hx Hl IH]; simpl; [constructor|].
  apply Forall_sort_insert; assumption.
Qed.

Lemma array_sort_nil_inv compare l : array_sort compare l = [] -> l = [].
Proof.
  destruct l as [|x l]; [reflexivity|]. simpl.
  destruct (array_sort compare l) as [|y l']; simpl; [discriminate|].
  destruct (Z.leb (compare x y) 0); discriminate.
Qed.

Lemma Forall_False_nil (l : list FileInfo) :
  Forall (fun _ => False) l -> l = [].
Proof. destruct 1; [reflexivity|contradiction]. Qed.

Lemma nodes_at_nil k : nodes_at k [] = [].
Proof. destruct k; reflexivity. Qed.

Lemma Forall_nodes_at_S (P : FileInfo -> Prop) k l :
  Forall P (nodes_at (S k) l)
  <-> Forall
        (fun n => forall cs, fi_children n = Some cs ->
                             Forall P (nodes_at k cs)) l.
Proof.
  simpl. rewrite Forall_flat_map. apply Forall_iff. intros n.
  destruct (fi_children n) as [cs|]; split.
  - intros H cs' [= <-]. exact H.
  - intros H. apply H. reflexivity.
  - intros _ cs' [=].
  - intros _. constructor.
Qed.

(** A property of the nodes built for the entries of a listing holds
    of every node of the sorted result. *)
Lemma Forall_result (P : FileInfo -> Prop) fuel depth files result :
  Forall2 (fun f n => node_of fuel depth f = Some n) files result ->
  (forall f n, node_of fuel depth f = Some n -> P n) ->
  Forall P (array_sort compareNodes result).
Proof.
  intros H2 HP. apply Forall_array_sort.
  induction H2 as [|f n files result Hn _ IH]; constructor; eauto.
Qed.

(** *** The depth limit *)

Lemma not_cut_below c depth :
  cut_depth maxDepth = Some c ->
  0 <= depth ->
  depth_gt depth maxDepth = false ->
  depth < c /\ depth_succ depth = depth + 1.
Proof.
  intros Hc Hd Hgt. destruct (cut_depth_spec _ _ Hc) as [Hrange Hcut].
  assert (Hlt : depth < c).
  { destruct (Z.lt_ge_cases depth c) as [H|H]; [exact H|].
    apply (Hcut depth Hd) in H. congruence. }
  split; [exact Hlt|]. apply depth_succ_below. lia.
Qed.

Lemma buildNode_depth c :
  cut_depth maxDepth = Some c ->
  forall fuel currentPath depth t k,
    buildNode fuel currentPath depth = Some t ->
    0 <= depth ->
    c - depth <= Z.of_nat k ->
    nodes_at k t = [].
Proof.
  intros Hc.
  induction fuel as [|fuel IH]; intros currentPath depth t k Hb Hd Hk;
    [discriminate|].
  destruct (buildNode_inv _ _ _ _ Hb)
    as [-> | (fuel' & files & result & [= <-] & Hle & _ & H2 & ->)];
    [apply nodes_at_nil|].
  destruct (not_cut_below c depth Hc Hd Hle) as [Hlt Hsucc].
  destruct k as [|k]; [lia|].
  apply Forall_False_nil, Forall_nodes_at_S.
  eapply Forall_result; [exact H2|].
  intros f n Hn cs Hcs.
  destruct (node_of_inv _ _ _ _ Hn) as (_ & _ & [[_ Hnone] | (cs' & _ & Hsome & Hb')]).
  - rewrite Hnone in Hcs. discriminate.
  - rewrite Hsome in Hcs. injection Hcs as <-.
    rewrite Hsucc in Hb'.
    rewrite (IH _ _ _ k Hb') by lia. constructor.
Qed.

Lemma buildNode_limit c :
  cut_depth maxDepth = Some c ->
  forall fuel currentPath depth t k,
    buildNode fuel currentPath depth = Some t ->
    0 <= depth ->
    depth + Z.of_nat k = c - 1 ->
    Forall (fun n => fi_type n = TDirectory -> fi_children n = Some [])
      (nodes_at k t).
Proof.
  intros Hc. destruct (cut_depth_spec _ _ Hc) as [Hrange Hcut].
  induction fuel as [|fuel IH]; intros currentPath depth t k Hb Hd Hk;
    [discriminate|].
  destruct (buildNode_inv _ _ _ _ Hb)
    as [-> | (fuel' & files & result & [= <-] & Hle & _ & H2 & ->)];
    [rewrite nodes_at_nil; constructor|].
  destruct (not_cut_below c depth Hc Hd Hle) as [Hlt Hsucc].
  destruct k as [|k].
  - simpl. eapply Forall_result; [exact H2|].
    intros f n Hn Hdir.
    destruct (node_of_inv _ _ _ _ Hn)
      as (_ & Hty & [[Hfile _] | (cs & _ & Hsome & Hb')]).
    + rewrite Hty, Hfile in Hdir. discriminate.
    + rewrite Hsome. f_equal.
      destruct fuel as [|fuel]; [discriminate|].
      rewrite Hsucc in Hb'.
      rewrite buildNode_beyond in Hb' by (apply Hcut; lia). congruence.
  - apply Forall_nodes_at_S.
    eapply Forall_result; [exact H2|].
    intros f n Hn cs Hcs.
    destruct (node_of_inv _ _ _ _ Hn)
      as (_ & _ & [[_ Hnone] | (cs' & _ & Hsome & Hb')]).
    + rewrite Hnone in Hcs. discriminate.
    + rewrite Hsome in Hcs. injection Hcs as <-.
      rewrite Hsucc in Hb'.
      apply (IH _ _ _ k Hb'); lia.
Qed.

Lemma array_sort_length compare l :
  length (array_sort compare l) = length l.
Proof.
  induction l as [|x l IH]; [reflexivity|]. simpl. rewrite <- IH.
  generalize (array_sort compare l). clear IH. intros l'.
  induction l' as [|y l' IH]; [reflexivity|]. simpl.
  destruct (Z.leb (compare x y) 0); simpl; [reflexivity|].
  rewrite IH. reflexivity.
Qed.

(** A call that is not cut and whose listing answers returns one node
    per listed entry. *)
Lemma buildNode_length fuel currentPath depth t files :
  buildNode fuel currentPath depth = Some t ->
  depth_gt depth maxDepth = false ->
  listFiles currentPath = Ok files ->
  length t = length files.
Proof.
  intros Hb Hgt Hl. destruct fuel as [|fuel]; [discriminate|].
  rewrite buildNode_unfold, Hgt, Hl in Hb.
  destruct (mapM (node_of fuel depth) files) as [result|] eqn:Hm;
    simpl in Hb; [|discriminate].
  injection Hb as <-. rewrite array_sort_length.
  symmetry. eapply Forall2_length, mapM_Some_1. exact Hm.
Qed.

(** *** Sorted sibling lists *)

Hypothesis localeCompare_consistent : consistent localeCompare.

Lemma sibling_le_total a b : sibling_le a b \/ sibling_le b a.
Proof.
  destruct localeCompare_consistent as [Htot _].
  unfold Moru.sibling_le, Moru.compareNodes.
  destruct (fi_type a), (fi_type b); simpl;
    try (left; lia); try (right; lia); apply Htot.
Qed.

Lemma sibling_le_trans a b c :
  sibling_le a b -> sibling_le b c -> sibling_le a c.
Proof.
  destruct localeCompare_consistent as [_ Htr].
  unfold Moru.sibling_le, Moru.compareNodes.
  destruct (fi_type a), (fi_type b), (fi_type c); simpl;
    try lia; apply Htr.
Qed.

Lemma sibling_le_dirs_first a b :
  sibling_le a b ->
  (fi_type b = TDirectory -> fi_type a = TDirectory)
  /\ (fi_type a = fi_type b ->
      localeCompare (fi_name a) (fi_name b) <= 0).
Proof.
  unfold Moru.sibling_le, Moru.compareNodes.
  destruct (fi_type a), (fi_type b); simpl; intros H; split;
    try lia; try congruence; intros _; exact H.
Qed.

Lemma sort_insert_sorted x l :
  StronglySorted sibling_le l ->
  StronglySorted sibling_le (sort_insert compareNodes x l).
Proof.
  induction 1 as [|y l Hl IH Hy]; simpl.
  - repeat constructor.
  - destruct (Z.leb_spec (compareNodes x y) 0) as [Hxy|Hxy].
    + constructor; [constructor; assumption|].
      constructor; [exact Hxy|].
      eapply Forall_impl; [exact Hy|].
      intros z Hz. eapply sibling_le_trans; [exact Hxy|exact Hz].
    + constructor; [exact IH|].
      apply Forall_sort_insert; [|exact Hy].
      destruct (sibling_le_total x y) as [H|H]; [|exact H].
      unfold Moru.sibling_le in H. lia.
Qed.

Lemma array_sort_sorted l :
  StronglySorted sibling_le (array_sort compareNodes l).
Proof.
  induction l as [|x l IH]; simpl; [constructor|].
  apply sort_insert_sorted, IH.
Qed.

Lemma sorted_dirs_first l :
  StronglySorted sibling_le l -> dirs_first_by_name localeCompare l.
Proof.
  induction 1 as [|x l _ IH Hx]; intros i j a b Hij Hi Hj.
  - rewrite lookup_nil in Hi. discriminate.
  - destruct j as [|j]; [lia|]. simpl in Hj.
    destruct i as [|i]; simpl in Hi.
    + injection Hi as <-. apply sibling_le_dirs_first.
      rewrite Forall_forall in Hx. apply Hx.
      apply list_elem_of_lookup. exists j. exact Hj.
    + apply (IH i j a b); [lia|exact Hi|exact Hj].
Qed.

Lemma dirs_first_nil : dirs_first_by_name localeCompare [].
Proof. intros i j a b _ Hi. rewrite lookup_nil in Hi. discriminate. Qed.

Lemma buildNode_sorted fuel :
  forall currentPath depth t,
    buildNode fuel currentPath depth = Some t ->
    dirs_first_by_name localeCompare t
    /\ forall k,
         Forall
           (fun n => forall cs, fi_children n = Some cs ->
                                dirs_first_by_name localeCompare cs)
           (nodes_at k t).
Proof.
  induction fuel as [|fuel IH]; intros currentPath depth t Hb;
    [discriminate|].
  destruct (buildNode_inv _ _ _ _ Hb)
    as [-> | (fuel' & files & result & [= <-] & _ & _ & H2 & ->)].
  { split; [apply dirs_first_nil|].
    intros k. rewrite nodes_at_nil. constructor. }
  split; [apply sorted_dirs_first, array_sort_sorted|].
  intros [|k].
  - simpl. eapply Forall_result; [exact H2|].
    intros f n Hn cs Hcs.
    destruct (node_of_inv _ _ _ _ Hn)
      as (_ & _ & [[_ Hnone] | (cs' & _ & Hsome & Hb')]).
    + rewrite Hnone in Hcs. discriminate.
    + rewrite Hsome in Hcs. injection Hcs as <-.
      apply (IH _ _ _ Hb').
  - apply Forall_nodes_at_S.
    eapply Forall_result; [exact H2|].
    intros f n Hn cs Hcs.
    destruct (node_of_inv _ _ _ _ Hn)
      as (_ & _ & [[_ Hnone] | (cs' & _ & Hsome & Hb')]).
    + rewrite Hnone in Hcs. discriminate.
    + rewrite Hsome in Hcs. injection Hcs as <-.
      apply (IH _ _ _ Hb').
Qed.

End Build.

Lemma ordinalCompare_consistent : consistent ordinalCompare.
Proof.
  assert (Hle : forall a b,
             ordinalCompare a b <= 0
             <-> OrdersEx.String_as_OT.compare a b <> Gt).
  { intros a b. unfold ordinalCompare.
    destruct (OrdersEx.String_as_OT.compare a b); split;
      try lia; try congruence. }
  split.
  - intros a b. rewrite !Hle.
    destruct (OrdersEx.String_as_OT.compare_spec a b) as [Heq|Hlt|Hgt].
    + left. discriminate.
    + left. discriminate.
    + right. unfold OrdersEx.String_as_OT.lt in Hgt. rewrite Hgt.
      discriminate.
  - intros a b c. rewrite !Hle. intros Hab Hbc.
    destruct (OrdersEx.String_as_OT.compare_spec a b) as [->|Hlt1|_];
      [exact Hbc| |congruence].
    destruct (OrdersEx.String_as_OT.compare_spec b c) as [<-|Hlt2|_];
      [|
       |congruence].
    + unfold OrdersEx.String_as_OT.lt in Hlt1. rewrite Hlt1. discriminate.
    + pose proof (transitivity Hlt1 Hlt2) as Hlt.
      unfold OrdersEx.String_as_OT.lt in Hlt. rewrite Hlt. discriminate.
Qed.

(** *** A volume whose directories never end *)

Lemma bottomless_node localeCompare maxDepth fuel currentPath depth :
  buildNode localeCompare bottomless maxDepth (S fuel) currentPath depth
  = if depth_gt depth maxDepth then Some []
    else
      children ← buildNode localeCompare bottomless maxDepth fuel
                   (currentPath +:+ "/d") (depth_succ depth);
      Some [ mkFileInfo "d" TDirectory None (currentPath +:+ "/d")
               (Some children) ].
Proof.
  rewrite buildNode_unfold. destruct (depth_gt depth maxDepth); [reflexivity|].
  unfold bottomless, Moru.node_of. simpl.
  destruct (buildNode localeCompare _ maxDepth fuel _ _); reflexivity.
Qed.

(** Where the depth test never holds, no number of nested calls is
    enough on such a volume. *)
Lemma bottomless_never_cut localeCompare maxDepth :
  cut_depth maxDepth = None ->
  forall fuel currentPath depth,
    0 <= depth <= MAX_EXACT ->
    buildNode localeCompare bottomless maxDepth fuel currentPath depth = None.
Proof.
  intros Hc. induction fuel as [|fuel IH]; intros currentPath depth Hd;
    [reflexivity|].
  rewrite bottomless_node, (cut_depth_none _ Hc) by lia.
  rewrite IH by (apply depth_succ_range; exact Hd). reflexivity.
Qed.

(** Where the test cuts at depth [c], the tree has nodes on every level
    above [c]. *)
Lemma bottomless_reaches localeCompare maxDepth c :
  cut_depth maxDepth = Some c ->
  forall fuel currentPath depth t,
    buildNode localeCompare bottomless maxDepth fuel currentPath depth
    = Some t ->
    0 <= depth ->
    forall k, depth + Z.of_nat k < c -> nodes_at k t <> [].
Proof.
  intros Hc. destruct (cut_depth_spec _ _ Hc) as [Hrange Hcut].
  induction fuel as [|fuel IH]; intros currentPath depth t Hb Hd k Hk;
    [discriminate|].
  rewrite bottomless_node in Hb.
  destruct (depth_gt depth maxDepth) eqn:Hgt.
  { apply (Hcut depth Hd) in Hgt. lia. }
  destruct (not_cut_below _ _ _ Hc Hd Hgt) as [_ Hsucc].
  rewrite Hsucc in Hb.
  destruct (buildNode localeCompare bottomless maxDepth fuel
              (currentPath +:+ "/d") (depth + 1)) as [cs|] eqn:Hcs;
    simpl in Hb; [|discriminate].
  injection Hb as <-. destruct k as [|k]; [discriminate|].
  simpl. rewrite app_nil_r. apply (IH _ _ _ Hcs); lia.
Qed.

(** With maxDepth = 1 the tree of such a volume has two levels, the
    lower directory with empty children; one nested call fewer than
    [enough_fuel] runs out. *)
Example bottomless_two_levels :
  buildFileTree ordinalCompare bottomless (number_of_Z 1) (enough_fuel 2) ""
  = Some [ mkFileInfo "d" TDirectory None "/d"
             (Some [ mkFileInfo "d" TDirectory None "/d/d" (Some []) ]) ]
  /\ buildFileTree ordinalCompare bottomless (number_of_Z 1) 2 "" = None.
Proof. split; reflexivity. Qed.

Example negative_maxDepth :
  buildFileTree ordinalCompare small_volume (number_of_Z (-1)) 1 "/"
  = Some [].
Proof. reflexivity. Qed.

(** A fractional limit cuts where its integer part does. *)
Example fractional_maxDepth :
  cut_depth (Finite (QArith_base.Qmake 5 2)) = Some 3
  /\ cut_depth (number_of_Z 2) = Some 3
  /\ cut_depth (number_of_Z MAX_EXACT) = None.
Proof. repeat split; reflexivity. Qed.

(** C9, as stated, fails: with maxDepth Infinity, NaN or 2^53 the test
    [depth > maxDepth] never holds for the depth counter, and on a volume
    whose directories never end buildFileTree does not return, whatever
    number of nested calls it is given. *)
Lemma C9_unbounded_limit_never_returns :
  (~ exists fuel t,
       buildFileTree ordinalCompare bottomless PosInfinity fuel "" = Some t)
  /\ (~ exists fuel t,
         buildFileTree ordinalCompare bottomless NaN fuel "" = Some t)
  /\ (~ exists fuel t,
         buildFileTree ordinalCompare bottomless (number_of_Z MAX_EXACT)
           fuel "" = Some t).
Proof.
  repeat split; intros (fuel & t & Ht); unfold buildFileTree in Ht;
    rewrite bottomless_never_cut in Ht;
    try discriminate; try reflexivity; unfold MAX_EXACT; lia.
Qed.

(** C9, amended: for a maxDepth at which the depth test can hold, that
    is -Infinity or a finite number below 2^53, with [c] the first depth
    at which it holds (0 for a negative limit, the integer part of
    maxDepth plus one otherwise), buildFileTree returns: [c] + 1 nested
    calls of buildNode are enough, and more change nothing; a call at a
    depth greater than maxDepth returns the empty list; the directories
    on the last level have empty children and there is no node more than
    [c] levels deep; and the limit is reached, not only respected: the
    top level has one node per listed entry when [c] is positive, and on
    a volume whose directories never end every level above [c] has a
    node. *)
Theorem C9_buildFileTree_terminates
    localeCompare listFiles maxDepth c path :
  cut_depth maxDepth = Some c ->
  exists t,
    buildFileTree localeCompare listFiles maxDepth (enough_fuel c) path
    = Some t
    /\ (forall extra,
          buildFileTree localeCompare listFiles maxDepth
            (enough_fuel c + extra) path = Some t)
    /\ (forall depth, 0 <= depth ->
          (depth_gt depth maxDepth = true <-> c <= depth))
    /\ (forall fuel currentPath depth,
          depth_gt depth maxDepth = true ->
          buildNode localeCompare listFiles maxDepth (S fuel)
            currentPath depth = Some [])
    /\ Forall (fun n => fi_type n = TDirectory -> fi_children n = Some [])
         (nodes_at (Z.to_nat (c - 1)) t)
    /\ (forall k, (Z.to_nat c <= k)%nat -> nodes_at k t = [])
    /\ (forall files,
          0 < c -> listFiles path = Ok files -> length t = length files)
    /\ (forall t',
          buildFileTree localeCompare bottomless maxDepth (enough_fuel c) path
          = Some t' ->
          forall k, (k < Z.to_nat c)%nat -> nodes_at k t' <> []).
Proof.
  intros Hc. destruct (cut_depth_spec _ _ Hc) as [Hrange Hcut].
  destruct (buildNode_returns localeCompare listFiles maxDepth c Hc
              (enough_fuel c) path 0) as [t Ht];
    [lia|unfold enough_fuel; lia|].
  exists t. split; [exact Ht|].
  split; [intros extra; apply buildNode_more_fuel; exact Ht|].
  split; [exact Hcut|].
  split; [intros fuel currentPath depth Hd; apply buildNode_beyond; exact Hd|].
  split; [|split; [|split]].
  - destruct (Z.eq_dec c 0) as [->|Hpos].
    + unfold buildFileTree, enough_fuel in Ht.
      rewrite buildNode_beyond in Ht by (apply Hcut; lia).
      injection Ht as <-. rewrite nodes_at_nil. constructor.
    + eapply (buildNode_limit _ _ _ c Hc); [exact Ht|lia|lia].
  - intros k Hk. eapply (buildNode_depth _ _ _ c Hc); [exact Ht|lia|lia].
  - intros files Hpos Hl. eapply buildNode_length; [exact Ht| |exact Hl].
    destruct (depth_gt 0 maxDepth) eqn:Hgt; [|reflexivity].
    apply (Hcut 0) in Hgt; lia.
  - intros t' Ht' k Hk.
    eapply (bottomless_reaches _ _ c Hc); [exact Ht'|lia|lia].
Qed.

Lemma C9_buildFileTree_terminates_witness :
  cut_depth (number_of_Z 1) = Some 2
  /\ exists t,
       buildFileTree ordinalCompare bottomless (number_of_Z 1) (enough_fuel 2)
         "" = Some t
       /\ nodes_at 1 t <> []
       /\ nodes_at 2 t = [].
Proof.
  assert (Hc : cut_depth (number_of_Z 1) = Some 2) by reflexivity.
  split; [exact Hc|].
  destruct (C9_buildFileTree_terminates ordinalCompare bottomless
              (number_of_Z 1) 2 "" Hc)
    as (t & Ht & _ & _ & _ & _ & Hdeep & _ & Hreach).
  exists t. split; [exact Ht|]. split.
  - apply (Hreach t Ht 1%nat). simpl. lia.
  - apply (Hdeep 2%nat). simpl. lia.
Defined.

(** C10: in a tree returned by buildFileTree the top-level list and
    every children array have all directories before all files and,
    within each group, names ascending under localeCompare, for a
    localeCompare that orders strings consistently. *)
Theorem C10_siblings_sorted localeCompare listFiles maxDepth fuel path t :
  consistent localeCompare ->
  buildFileTree localeCompare listFiles maxDepth fuel path = Some t ->
  dirs_first_by_name localeCompare t
  /\ forall k n cs,
       In n (nodes_at k t) -> fi_children n = Some cs ->
       dirs_first_by_name localeCompare cs.
Proof.
  intros Hc Ht.
  destruct (buildNode_sorted localeCompare listFiles maxDepth Hc _ _ _ _ Ht)
    as [Htop Hall].
  split; [exact Htop|].
  intros k n cs Hn Hcs. specialize (Hall k).
  rewrite List.Forall_forall in Hall. exact (Hall n Hn cs Hcs).
Qed.

Lemma C10_siblings_sorted_witness :
  consistent ordinalCompare
  /\ buildFileTree ordinalCompare small_volume (number_of_Z 5) (enough_fuel 6)
       "/" = Some small_tree
  /\ dirs_first_by_name ordinalCompare small_tree
  /\ dirs_first_by_name ordinalCompare
       [ mkFileInfo "lib" TDirectory None "/src/lib" (Some []);
         mkFileInfo "main.ts" TFile (Some 40) "/src/main.ts" None ].
Proof.
  assert (Ht : buildFileTree ordinalCompare small_volume (number_of_Z 5)
                 (enough_fuel 6) "/" = Some small_tree) by reflexivity.
  destruct (C10_siblings_sorted ordinalCompare small_volume (number_of_Z 5)
              (enough_fuel 6) "/" small_tree ordinalCompare_consistent Ht)
    as [Htop Hall].
  split; [exact ordinalCompare_consistent|]. split; [exact Ht|].
  split; [exact Htop|].
  apply (Hall 0%nat
           (mkFileInfo "src" TDirectory None "/src"
              (Some
                 [ mkFileInfo "lib" TDirectory None "/src/lib" (Some []);
                   mkFileInfo "main.ts" TFile (Some 40) "/src/main.ts"
                     None ]))).
  - simpl. right. left. reflexivity.
  - reflexivity.
Defined.

End MoruClaims.


(** * Further properties of the modelled code *)

(** ** The status callback route: errors, frame, runs *)

Module ServerExtra.
Import Server ServerSpec.

Lemma POST_cases env id body w :
  (POST env id body w = (w, json_error "Conversation not found" 404)
   /\ db w !! id = None /\ findUnique_fault env = None)
  \/ (exists e,
        POST env id body w
        = (w, json_error (message_or e "Internal server error") 500)
        /\ (body = Throws e
            \/ findUnique_fault env = Some e
            \/ (findUnique_fault env = None /\ is_Some (db w !! id)
                /\ update_fault env = Some e)))
  \/ (exists r c,
        body = Ok r /\ db w !! id = Some c /\ store_ok env
        /\ POST env id body w
           = ({| db := <[id := callback_row r c]> (db w);
                 kills := kills w ++ cleanup_of c |}, json_success)).
Proof.
  destruct body as [r|e].
  2:{ right. left. exists e. split; [reflexivity|]. left. reflexivity. }
  destruct (findUnique_fault env) as [e|] eqn:Hf.
  { right. left. exists e. split; [|right; left; reflexivity].
    unfold_route. rewrite Hf. reflexivity. }
  destruct (db w !! id) as [c|] eqn:Hc.
  2:{ left. split; [|split; reflexivity].
      unfold_route. rewrite Hf. simpl. rewrite Hc. reflexivity. }
  destruct (update_fault env) as [e|] eqn:Hu.
  { right. left. exists e. split.
    - unfold_route. rewrite Hf. simpl. rewrite Hc, Hu. reflexivity.
    - right. right. repeat split; [eexists; reflexivity]. }
  right. right. exists r, c. repeat split; try assumption.
  apply POST_existing; [exact Hc|split; assumption].
Qed.

(** X1: a callback for a conversation id that has no row answers 404
    with {error: "Conversation not found"}; no row is written and no
    sandbox is terminated. *)
Theorem callback_unknown_conversation env id r w :
  findUnique_fault env = None ->
  db w !! id = None ->
  POST env id (Ok r) w = (w, json_error "Conversation not found" 404).
Proof.
  intros Hf Hc.
  destruct (POST_cases env id (Ok r) w)
    as [(H & _) | [(e & _ & [H | [H | (_ & [c H] & _)]]) | (r' & c & _ & H & _)]];
    try congruence.
Qed.

Lemma callback_unknown_conversation_witness :
  findUnique_fault kill_throws = None
  /\ db running_world !! "nope" = None
  /\ POST kill_throws "nope" (Ok completed_s2) running_world
     = (running_world, json_error "Conversation not found" 404).
Proof.
  assert (Hn : db running_world !! "nope" = None) by reflexivity.
  split; [reflexivity|]. split; [exact Hn|].
  apply (callback_unknown_conversation kill_throws "nope" completed_s2
           running_world eq_refl Hn).
Defined.

(** X2: the route answers {success:true} exactly when the body parses,
    the row exists and both store calls go through; what the provider
    does with the termination never enters. *)
Theorem callback_success_iff env id body w :
  (POST env id body w).2 = json_success
  <-> (exists r, body = Ok r) /\ is_Some (db w !! id) /\ store_ok env.
Proof.
  destruct (POST_cases env id body w)
    as [(H & Hn & _) | [(e & H & Hwhy) | (r & c & Hb & Hc & Hok & H)]];
    rewrite H; simpl; split.
  - discriminate.
  - intros (_ & [c Hc] & _). congruence.
  - discriminate.
  - intros ([r Hr] & [c Hc] & [Hf Hu]).
    destruct Hwhy as [Hb | [Hf' | (_ & _ & Hu')]]; congruence.
  - intros _. split; [exists r; exact Hb|]. split; [exists c; exact Hc|exact Hok].
  - reflexivity.
Qed.

(** X3: a callback that does not answer success has no effect at all:
    the rows and the log of terminations are what they were, and the
    status code is 404 or 500. *)
Theorem callback_failure_is_atomic env id body w :
  (POST env id body w).2 <> json_success ->
  (POST env id body w).1 = w
  /\ (resp_code (POST env id body w).2 = 404
      \/ resp_code (POST env id body w).2 = 500).
Proof.
  destruct (POST_cases env id body w)
    as [(H & _) | [(e & H & _) | (r & c & _ & _ & _ & H)]];
    rewrite H; simpl; intros Hne.
  - split; [reflexivity|left; reflexivity].
  - split; [reflexivity|right; reflexivity].
  - contradiction.
Qed.

Lemma callback_failure_is_atomic_witness :
  (POST update_breaks "c1" (Ok completed_s2) running_world).2 <> json_success
  /\ (POST update_breaks "c1" (Ok completed_s2) running_world).1
     = running_world
  /\ resp_code (POST update_breaks "c1" (Ok completed_s2) running_world).2
     = 500.
Proof.
  assert (Hne : (POST update_breaks "c1" (Ok completed_s2) running_world).2
                <> json_success) by (vm_compute; discriminate).
  split; [exact Hne|].
  destruct (callback_failure_is_atomic update_breaks "c1" (Ok completed_s2)
              running_world Hne) as [Hw _].
  split; [exact Hw|]. vm_compute. reflexivity.
Defined.

(** X4: when a store call throws, the answer is 500 and carries the
    message of the thrown Error, or "Internal server error" when what was
    thrown is not an Error; nothing is written or terminated. *)
Theorem callback_store_fault env id r w e :
  findUnique_fault env = Some e
  \/ (findUnique_fault env = None /\ is_Some (db w !! id)
      /\ update_fault env = Some e) ->
  POST env id (Ok r) w
  = (w, json_error (message_or e "Internal server error") 500).
Proof.
  intros Hfault.
  destruct (POST_cases env id (Ok r) w)
    as [(_ & Hn & Hf) | [(e' & H & Hwhy) | (r' & c & _ & Hc & [Hf Hu] & _)]].
  - destruct Hfault as [Hf' | (_ & [c Hc] & _)]; congruence.
  - rewrite H.
    destruct Hwhy as [Hb | [Hf | (Hf & _ & Hu)]]; [discriminate| |];
      destruct Hfault as [Hf' | (Hf' & _ & Hu')]; congruence.
  - destruct Hfault as [Hf' | (_ & _ & Hu')]; congruence.
Qed.

Lemma callback_store_fault_witness :
  (findUnique_fault store_down = Some (ErrorObj "Can't reach database server")
   \/ (findUnique_fault store_down = None
       /\ is_Some (db running_world !! "c1")
       /\ update_fault store_down
          = Some (ErrorObj "Can't reach database server")))
  /\ POST store_down "c1" (Ok completed_s2) running_world
     = (running_world, json_error "Can't reach database server" 500).
Proof.
  split; [left; reflexivity|].
  apply (callback_store_fault store_down "c1" completed_s2 running_world
           (ErrorObj "Can't reach database server")).
  left. reflexivity.
Defined.

Lemma POST_db env id body w :
  db (POST env id body w).1 = db w
  \/ exists r c,
       db w !! id = Some c
       /\ db (POST env id body w).1 = <[id := callback_row r c]> (db w).
Proof.
  destruct (POST_cases env id body w)
    as [(H & _) | [(e & H & _) | (r & c & _ & Hc & _ & H)]];
    rewrite H; simpl; [left; reflexivity|left; reflexivity|].
  right. exists r, c. split; [exact Hc|reflexivity].
Qed.

(** X5: a callback for one conversation never adds or removes a row and
    leaves the row of every other conversation as it was. *)
Theorem callback_frame env id body w :
  dom (db (POST env id body w).1) = dom (db w)
  /\ forall id', id' <> id ->
       db (POST env id body w).1 !! id' = db w !! id'.
Proof.
  destruct (POST_db env id body w) as [H | (r & c & Hc & H)]; rewrite H.
  - split; [reflexivity|]. intros; reflexivity.
  - split.
    + apply dom_insert_lookup_L. exists c. exact Hc.
    + intros id' Hne. apply lookup_insert_ne. congruence.
Qed.

Lemma callback_row_idem r c :
  callback_row r (callback_row r c) = callback_row r c.
Proof.
  unfold callback_row, apply_data, or_else. simpl.
  destruct (truthy (req_sessionId r)); reflexivity.
Qed.

(** X6: delivering the same callback a second time after the first was
    answered is the same as delivering it once: the second call leaves
    the status, errorMessage, sessionId, sandboxId, id and volumeId of
    every row as the first left them and attempts no termination, and
    both answer success. (Two deliveries that overlap are X24.) *)
Theorem callback_twice_is_once env1 env2 id r w c :
  db w !! id = Some c ->
  store_ok env1 -> store_ok env2 ->
  let p1 := POST env1 id (Ok r) w in
  let p2 := POST env2 id (Ok r) p1.1 in
  db p2.1 = db p1.1
  /\ kills p2.1 = kills p1.1
  /\ p1.2 = json_success /\ p2.2 = json_success.
Proof.
  intros Hc Hok1 Hok2 p1 p2. subst p1 p2.
  rewrite (POST_existing _ _ _ _ _ Hc Hok1). cbn [fst snd].
  rewrite (POST_existing env2 id r _ (callback_row r c)
             (lookup_insert_eq _ _ _) Hok2).
  cbn [fst snd db kills]. rewrite callback_row_idem, insert_insert_eq.
  repeat split. unfold cleanup_of, callback_row, apply_data. simpl.
  apply app_nil_r.
Qed.

Lemma callback_twice_is_once_witness :
  db running_world !! "c1" = Some running_row
  /\ store_ok calm /\ store_ok kill_throws
  /\ db (POST kill_throws "c1" (Ok error_boom)
           (POST calm "c1" (Ok error_boom) running_world).1).1
     = db (POST calm "c1" (Ok error_boom) running_world).1
  /\ kills (POST kill_throws "c1" (Ok error_boom)
              (POST calm "c1" (Ok error_boom) running_world).1).1
     = [ "sb1" ].
Proof.
  assert (Hc : db running_world !! "c1" = Some running_row)
    by apply lookup_singleton_eq.
  assert (Hok1 : store_ok calm) by (split; reflexivity).
  assert (Hok2 : store_ok kill_throws) by (split; reflexivity).
  pose proof (callback_twice_is_once calm kill_throws "c1" error_boom
                running_world running_row Hc Hok1 Hok2) as H.
  cbv zeta in H. destruct H as (Hdb & Hk & _).
  split; [exact Hc|]. split; [exact Hok1|]. split; [exact Hok2|].
  split; [exact Hdb|].
  rewrite Hk. rewrite (POST_existing _ _ _ _ _ Hc Hok1). reflexivity.
Defined.







(** X8: one callback issues at most one Sandbox.kill; when it issues
    one, it is for the non-empty sandboxId recorded on the row of that
    conversation, the update has gone through, the answer is success and
    the row no longer records a sandbox. *)
Theorem callback_kills_only_own env id body w :
  kills (POST env id body w).1 = kills w
  \/ exists c sandboxId,
       db w !! id = Some c
       /\ conv_sandboxId c = Some sandboxId
       /\ sandboxId <> ""
       /\ kills (POST env id body w).1 = kills w ++ [sandboxId]
       /\ (POST env id body w).2 = json_success
       /\ conv_sandboxId <$> db (POST env id body w).1 !! id = Some None.
Proof.
  destruct (POST_cases env id body w)
    as [(H & _) | [(e & H & _) | (r & c & _ & Hc & _ & H)]];
    rewrite H; simpl; [left; reflexivity|left; reflexivity|].
  unfold cleanup_of. destruct (conv_sandboxId c) as [sb|] eqn:Hsb;
    [|left; apply app_nil_r].
  simpl. destruct (String.eqb_spec sb "") as [->|Hne]; simpl;
    [left; apply app_nil_r|].
  right. exists c, sb. repeat split; try assumption.
  rewrite lookup_insert_eq. reflexivity.
Qed.

Lemma POST_quiet env id body w :
  quiet id w ->
  quiet id (POST env id body w).1 /\ kills (POST env id body w).1 = kills w.
Proof.
  intros Hq.
  destruct (POST_cases env id body w)
    as [(H & _) | [(e & H & _) | (r & c & _ & Hc & _ & H)]];
    rewrite H; simpl; try (split; [exact Hq|reflexivity]).
  split.
  - intros c'. simpl. rewrite lookup_insert_eq. intros [= <-]. reflexivity.
  - rewrite (Hq c Hc). apply app_nil_r.
Qed.

Lemma run_quiet calls :
  forall id w,
    Forall (fun call => call.1.2 = id) calls ->
    quiet id w ->
    kills (run_callbacks calls w).1 = kills w.
Proof.
  induction calls as [|[[env id0] body] rest IH]; intros id w Hall Hq;
    [reflexivity|].
  apply Forall_cons in Hall as [Hid Hrest]. simpl in Hid. subst id0.
  destruct (POST_quiet env id body w Hq) as [Hq' Hk].
  simpl. rewrite (IH id _ Hrest Hq'). exact Hk.
Qed.

(** X9: over any run of callbacks for one conversation that are handled
    one after the other, each answered before the next is read, whatever
    fails, at most one Sandbox.kill is issued in total: the first
    callback that updates the row clears its sandboxId. (Two callbacks
    that overlap issue two, X24.) *)
Theorem run_kills_at_most_once calls :
  forall id w,
    Forall (fun call => call.1.2 = id) calls ->
    (length (kills (run_callbacks calls w).1) <= length (kills w) + 1)%nat.
Proof.
  induction calls as [|[[env id0] body] rest IH]; intros id w Hall;
    [simpl; lia|].
  apply Forall_cons in Hall as [Hid Hrest]. simpl in Hid. subst id0.
  simpl.
  destruct (POST_cases env id body w)
    as [(H & _) | [(e & H & _) | (r & c & _ & Hc & _ & H)]];
    rewrite H; cbn [fst]; try (apply (IH id); exact Hrest).
  rewrite (run_quiet rest id); [| exact Hrest |].
  - simpl. rewrite length_app. unfold cleanup_of.
    destruct (conv_sandboxId c) as [sb|]; [|simpl; lia].
    destruct (truthy (Some sb)); simpl; lia.
  - intros c'. simpl. rewrite lookup_insert_eq. intros [= <-]. reflexivity.
Qed.

Lemma run_kills_at_most_once_witness :
  Forall (fun call => call.1.2 = "c1") three_calls
  /\ (length (kills (run_callbacks three_calls running_world).1)
      <= length (kills running_world) + 1)%nat
  /\ kills (run_callbacks three_calls running_world).1 = [ "sb1" ].
Proof.
  assert (Hall : Forall (fun call => call.1.2 = "c1") three_calls)
    by (repeat constructor).
  split; [exact Hall|]. split.
  - apply (run_kills_at_most_once three_calls "c1" running_world Hall).
  - vm_compute. reflexivity.
Defined.

(** The route is its two parts run without anything in between. *)
Lemma POST_split env id body w :
  POST env id body w
  = POST_finish env id (POST_read env id body w).2 (POST_read env id body w).1.
Proof.
  unfold POST_read, POST_finish, POST_write. unfold_route.
  destruct body as [r|e]; simpl; [|reflexivity].
  destruct (findUnique_fault env); simpl; [reflexivity|].
  destruct (db w !! id) as [c|] eqn:Hc; simpl; [|reflexivity].
  destruct (update_fault env); simpl; [reflexivity|].
  rewrite Hc. simpl.
  destruct (conv_sandboxId c) as [sb|]; simpl; [|reflexivity].
  destruct (negb (String.eqb sb "")); simpl; [|reflexivity].
  destruct (kill_fault env sb); reflexivity.
Qed.

Lemma POST_read_existing env id r w c :
  db w !! id = Some c ->
  store_ok env ->
  POST_read env id (Ok r) w = (w, inr (r, c)).
Proof.
  intros Hc [Hf _]. unfold POST_read. unfold_route.
  rewrite Hf. simpl. rewrite Hc. reflexivity.
Qed.

Lemma POST_write_existing env id r c c0 w :
  db w !! id = Some c0 ->
  store_ok env ->
  POST_write env id (r, c) w
  = ({| db :=
          <[id := apply_data
                    {| data_status := req_status r;
                       data_errorMessage := or_else (req_errorMessage r) None;
                       data_sessionId :=
                         or_else (req_sessionId r) (conv_sessionId c);
                       data_sandboxId := None |} c0]> (db w);
        kills := kills w ++ cleanup_of c |}, json_success).
Proof.
  intros Hc0 [_ Hu]. unfold POST_write, cleanup_of. unfold_route.
  rewrite Hu, Hc0. simpl.
  destruct (conv_sandboxId c) as [sb|]; simpl.
  - destruct (negb (String.eqb sb "")); simpl.
    + destruct (kill_fault env sb); reflexivity.
    + rewrite app_nil_r. reflexivity.
  - rewrite app_nil_r. reflexivity.
Qed.

(** X24: two callbacks for one conversation that overlap, both having
    read the row before either updates it, both issue Sandbox.kill for
    the sandboxId they read, so the sandbox is terminated twice; both
    answer success, and the row is the one the second update writes from
    the row read at the start, so a sessionId that only the first
    callback supplied is not kept. *)
Theorem overlapping_callbacks_kill_twice env1 env2 id r1 r2 w c sandboxId :
  db w !! id = Some c ->
  store_ok env1 -> store_ok env2 ->
  conv_sandboxId c = Some sandboxId ->
  sandboxId <> "" ->
  let p := POST_overlapped env1 env2 id (Ok r1) (Ok r2) w in
  kills p.1 = kills w ++ [sandboxId; sandboxId]
  /\ p.2 = (json_success, json_success)
  /\ db p.1 !! id = Some (callback_row r2 c)
  /\ kills (POST env2 id (Ok r2) (POST env1 id (Ok r1) w).1).1
     = kills w ++ [sandboxId].
Proof.
  intros Hc Hok1 Hok2 Hsb Hne p. subst p. unfold POST_overlapped.
  rewrite (POST_read_existing _ _ _ _ _ Hc Hok1). cbn [fst snd].
  rewrite (POST_read_existing _ _ _ _ _ Hc Hok2). cbn [fst snd POST_finish].
  rewrite (POST_write_existing env1 id r1 c c w Hc Hok1). cbn [fst snd].
  rewrite (POST_write_existing env2 id r2 c _ _ (lookup_insert_eq _ _ _) Hok2).
  cbn [fst snd db kills].
  assert (Hclean : cleanup_of c = [sandboxId]).
  { unfold cleanup_of. rewrite Hsb. simpl.
    destruct (String.eqb_spec sandboxId ""); [contradiction|reflexivity]. }
  rewrite Hclean, <- app_assoc. split; [reflexivity|]. split; [reflexivity|].
  split; [rewrite lookup_insert_eq; reflexivity|].
  rewrite (POST_existing _ _ _ _ _ Hc Hok1). cbn [fst].
  rewrite (POST_existing env2 id r2 _ (callback_row r1 c)
             (lookup_insert_eq _ _ _) Hok2).
  cbn [fst kills]. rewrite Hclean, <- app_assoc. reflexivity.
Qed.

Lemma overlapping_callbacks_kill_twice_witness :
  db running_world !! "c1" = Some running_row
  /\ store_ok calm
  /\ conv_sandboxId running_row = Some "sb1"
  /\ "sb1" <> ""
  /\ kills (POST_overlapped calm calm "c1" (Ok completed_s2) (Ok error_boom)
              running_world).1
     = [ "sb1"; "sb1" ]
  /\ conv_sessionId <$>
       db (POST_overlapped calm calm "c1" (Ok completed_s2) (Ok error_boom)
             running_world).1 !! "c1"
     = Some (Some "s1").
Proof.
  assert (Hc : db running_world !! "c1" = Some running_row)
    by apply lookup_singleton_eq.
  assert (Hok : store_ok calm) by (split; reflexivity).
  assert (Hne : "sb1" <> "") by discriminate.
  pose proof (overlapping_callbacks_kill_twice calm calm "c1" completed_s2
                error_boom running_world running_row "sb1" Hc Hok Hok
                eq_refl Hne) as H.
  cbv zeta in H. destruct H as (Hk & _ & Hrow & _).
  split; [exact Hc|]. split; [exact Hok|]. split; [reflexivity|].
  split; [exact Hne|]. split; [exact Hk|].
  rewrite Hrow. reflexivity.
Defined.

End ServerExtra.

(** ** Home: optimistic display, polls, failed submits *)

Module ClientExtra.
Import Client.


(** X11: a poll that answers with a status that is not terminal replaces
    the server messages and keeps every pending message: the displayed
    sequence is the new server list followed by all pending messages, so
    a submitted message that the server list already contains is shown
    again after it until a terminal poll. *)
Theorem running_poll_keeps_pending st data :
  terminal (cr_status data) = false ->
  pendingMessages (poll_response (FetchOk data) st) = pendingMessages st
  /\ messages (poll_response (FetchOk data) st)
     = cr_messages data
         ++ map (pending_entry (cr_messages data)) (pendingMessages st)
  /\ length (messages (poll_response (FetchOk data) st))
     = (length (cr_messages data) + length (pendingMessages st))%nat.
Proof.
  intros Ht.
  assert (Hp : pendingMessages (poll_response (FetchOk data) st)
               = pendingMessages st).
  { simpl. destruct (cr_status data); try discriminate Ht; reflexivity. }
  split; [exact Hp|].
  unfold messages. rewrite Hp. cbn [poll_response serverMessages].
  split; [reflexivity|]. rewrite length_app, length_map. reflexivity.
Qed.

Lemma running_poll_keeps_pending_witness :
  terminal (cr_status running_poll) = false
  /\ length (messages (poll_response (FetchOk running_poll) first_in_flight))
     = 2%nat
  /\ map se_content
       (messages (poll_response (FetchOk running_poll) first_in_flight))
     = [ "first"; "first" ].
Proof.
  split; [reflexivity|].
  destruct (running_poll_keeps_pending first_in_flight running_poll eq_refl)
    as (_ & Hm & Hl).
  split; [exact Hl|]. rewrite Hm. reflexivity.
Defined.



Lemma rerender_mounted c st' :
  mounted c = true ->
  state (rerender c st') = st' /\ mounted (rerender c st') = true.
Proof. unfold rerender. intros ->. split; reflexivity. Qed.

Lemma rerender_same c : rerender c (state c) = c.
Proof.
  unfold rerender. destruct c as [st [|] iv]; simpl; [|reflexivity].
  rewrite bool_decide_eq_true_2 by reflexivity. reflexivity.
Qed.

Lemma poll_effect_running st :
  status st = Running ->
  poll_effect st
  = match conversationId st with
    | Some cid =>
        if truthy (Some cid)
        then Some {| iv_period := 2000; iv_conversationId := cid |}
        else None
    | None => None
    end.
Proof.
  unfold poll_effect. intros ->.
  destruct (conversationId st) as [cid|]; [|reflexivity].
  destruct (truthy (Some cid)); reflexivity.
Qed.

(** X13: when the answer to a submit is ok, a mounted Home is running
    with its form disabled, and it polls exactly when the answer carried
    a non-empty conversationId: with that id and a period of 2000 ms;
    with a missing or empty id nothing polls, so no poll can ever end
    the running status. *)
Theorem accepted_submit_polls_iff_id c pid cid c' :
  reachable c ->
  mounted c = true ->
  handle (EvSubmitEnd pid (FetchOk cid)) c = Some c' ->
  status (state c') = Running
  /\ form_disabled (state c') = true
  /\ conversationId (state c') = cid
  /\ pollInterval c'
     = match cid with
       | Some i =>
           if truthy (Some i)
           then Some {| iv_period := 2000; iv_conversationId := i |}
           else None
       | None => None
       end
  /\ (truthy cid = false -> handle EvTick c' = None).
Proof.
  intros Hr Hm Hstep.
  assert (Hr' : reachable c') by (eapply reach_step; eassumption).
  pose proof (ClientClaims.reachable_in_sync c' Hr') as Hsync.
  change (Some (rerender c (submit_end pid (FetchOk cid) (state c)))
          = Some c') in Hstep.
  injection Hstep as <-.
  destruct (rerender_mounted c
              (submit_end pid (FetchOk cid) (state c)) Hm) as [Hst Hm'].
  cbn [submit_end] in Hst, Hm'.
  unfold effect_in_sync in Hsync. rewrite Hm', Hst in Hsync.
  rewrite poll_effect_running in Hsync by reflexivity.
  cbn [submit_end conversationId] in Hsync.
  rewrite Hst. split; [reflexivity|]. split; [reflexivity|].
  split; [reflexivity|]. split; [exact Hsync|].
  intros Hf. simpl. rewrite Hsync.
  destruct cid as [i|]; [|reflexivity]. rewrite Hf. reflexivity.
Qed.

Lemma accepted_submit_polls_iff_id_witness :
  reachable (rerender mount first_in_flight)
  /\ mounted (rerender mount first_in_flight) = true
  /\ handle (EvSubmitEnd (pendingId 1000) (FetchOk None))
       (rerender mount first_in_flight)
     = Some (rerender (rerender mount first_in_flight)
               (submit_end (pendingId 1000) (FetchOk None) first_in_flight))
  /\ status
       (state (rerender (rerender mount first_in_flight)
                 (submit_end (pendingId 1000) (FetchOk None)
                    first_in_flight)))
     = Running
  /\ pollInterval
       (rerender (rerender mount first_in_flight)
          (submit_end (pendingId 1000) (FetchOk None) first_in_flight))
     = None.
Proof.
  assert (Hr : reachable (rerender mount first_in_flight)).
  { eapply (reach_step (EvSubmitBegin 1000 "2026-01-01T00:00:01.000Z" "first")
              mount); [apply reach_mount|reflexivity]. }
  split; [exact Hr|]. split; [reflexivity|]. split; [reflexivity|].
  destruct (accepted_submit_polls_iff_id (rerender mount first_in_flight)
              (pendingId 1000) None _ Hr eq_refl eq_refl)
    as (Hs & _ & _ & Hp & _).
  split; [exact Hs|exact Hp].
Defined.

(** X14: a poll whose fetch throws, or whose response is not ok, changes
    nothing: the state, the pending messages and the running interval are
    what they were, so polling goes on. *)
Theorem failed_poll_changes_nothing c e :
  handle (EvPollResponse (FetchThrows e)) c = Some c
  /\ handle (EvPollResponse (FetchNotOk tt)) c = Some c.
Proof.
  simpl. rewrite rerender_same. split; reflexivity.
Qed.

(** X15: one whole turn on a freshly mounted Home: a submit, its answer
    ok with a non-empty conversationId, a tick of the interval this
    started, and a poll answer with a terminal status. At the end
    the displayed sequence is the message list of that answer, nothing is
    pending, the interval is cleared, and the form is enabled again. *)
Theorem one_turn_ends_reconciled now iso content cid data :
  truthy cid = true ->
  terminal (cr_status data) = true ->
  exists c',
    run_events (one_turn now iso content cid data) mount = Some c'
    /\ messages (state c') = cr_messages data
    /\ pendingMessages (state c') = []
    /\ status (state c') = cr_status data
    /\ conversationId (state c') = cid
    /\ pollInterval c' = None
    /\ isLoading (state c') = false
    /\ form_disabled (state c') = false.
Proof.
  intros Hcid Hterm.
  set (c1 := rerender mount (submit_begin now iso content initial)).
  set (c2 := rerender c1 (submit_end (pendingId now) (FetchOk cid) (state c1))).
  set (c3 := rerender c2 (poll_response (FetchOk data) (state c2))).
  assert (Hr1 : reachable c1).
  { eapply (reach_step (EvSubmitBegin now iso content) mount);
      [apply reach_mount|reflexivity]. }
  assert (Hr2 : reachable c2).
  { eapply (reach_step (EvSubmitEnd (pendingId now) (FetchOk cid)) c1);
      [exact Hr1|reflexivity]. }
  assert (Hm1 : mounted c1 = true) by reflexivity.
  destruct (accepted_submit_polls_iff_id c1 (pendingId now) cid c2 Hr1 Hm1
              eq_refl) as (Hs2 & _ & Hc2 & Hp2 & _).
  assert (Hm2 : mounted c2 = true)
    by (apply (rerender_mounted c1 _ Hm1)).
  assert (Htick : handle EvTick c2 = Some c2).
  { cbn [handle]. rewrite Hp2. destruct cid as [i|]; [|discriminate Hcid].
    rewrite Hcid. reflexivity. }
  assert (Hr3 : reachable c3).
  { eapply (reach_step (EvPollResponse (FetchOk data)) c2);
      [exact Hr2|reflexivity]. }
  destruct (rerender_mounted c2 (poll_response (FetchOk data) (state c2)) Hm2)
    as [Hst3 Hm3].
  fold c3 in Hst3, Hm3.
  assert (Hpend : pendingMessages (state c3) = []).
  { rewrite Hst3. simpl.
    destruct (cr_status data); try discriminate Hterm; reflexivity. }
  assert (Hnr : status (state c3) <> Running).
  { rewrite Hst3. simpl. destruct (cr_status data);
      try discriminate Hterm; discriminate. }
  exists c3. split.
  { change (run_events (one_turn now iso content cid data) mount)
      with (match handle EvTick c2 with
            | Some c' => run_events [EvPollResponse (FetchOk data)] c'
            | None => None
            end).
    rewrite Htick. reflexivity. }
  split.
  { unfold messages. rewrite Hpend. rewrite Hst3. simpl. apply app_nil_r. }
  split; [exact Hpend|].
  split; [rewrite Hst3; reflexivity|].
  split; [rewrite Hst3; simpl; exact Hc2|].
  split.
  { pose proof (ClientClaims.reachable_in_sync c3 Hr3) as Hsync.
    unfold effect_in_sync in Hsync. rewrite Hm3 in Hsync. rewrite Hsync.
    unfold poll_effect. destruct (conversationId (state c3)); [|reflexivity].
    rewrite (bool_decide_eq_false_2 _ Hnr), orb_true_r. reflexivity. }
  split.
  { unfold isLoading. rewrite (bool_decide_eq_false_2 _ Hnr).
    rewrite Hst3. reflexivity. }
  unfold form_disabled. apply bool_decide_eq_false_2. exact Hnr.
Qed.

Lemma one_turn_ends_reconciled_witness :
  truthy (Some "c1") = true
  /\ terminal (cr_status completed_poll) = true
  /\ exists c',
       run_events
         (one_turn 1000 "2026-01-01T00:00:01.000Z" "first" (Some "c1")
            completed_poll) mount = Some c'
       /\ messages (state c') = [confirmed_first]
       /\ pollInterval c' = None.
Proof.
  split; [reflexivity|]. split; [reflexivity|].
  destruct (one_turn_ends_reconciled 1000 "2026-01-01T00:00:01.000Z" "first"
              (Some "c1") completed_poll eq_refl eq_refl)
    as (c' & Hrun & Hm & _ & _ & _ & Hp & _).
  exists c'. split; [exact Hrun|]. split; [exact Hm|exact Hp].
Defined.

End ClientExtra.

(** ** The file tree: what it contains *)

Module MoruExtra.
Import Moru.

Lemma sort_insert_perm compare x l : sort_insert compare x l ≡ₚ x :: l.
Proof.
  induction l as [|y l IH]; simpl; [reflexivity|].
  destruct (Z.leb (compare x y) 0); [reflexivity|].
  rewrite IH. apply Permutation_swap.
Qed.

(** X16: sorting an array with any comparator, consistent or not, keeps
    every element once: the result is a permutation of the input. *)
Theorem array_sort_permutation compare l :
  array_sort compare l ≡ₚ l
  /\ length (array_sort compare l) = length l.
Proof.
  assert (Hp : array_sort compare l ≡ₚ l).
  { induction l as [|x l IH]; simpl; [reflexivity|].
    rewrite sort_insert_perm, IH. reflexivity. }
  split; [exact Hp|]. rewrite Hp. reflexivity.
Qed.

Section Contents.

Variable localeCompare : string -> string -> Z.
Variable listFiles : string -> outcome (list Listed).
Variable maxDepth : JsNumber.

Abbreviation build := (Moru.buildNode localeCompare listFiles maxDepth).
Abbreviation node := (Moru.node_of localeCompare listFiles maxDepth).
Abbreviation cmp := (Moru.compareNodes localeCompare).
Abbreviation le := (Moru.sibling_le localeCompare).

Lemma sorted_unchanged l :
  StronglySorted le l -> array_sort cmp l = l.
Proof.
  induction 1 as [|x l _ IH Hx]; [reflexivity|].
  simpl. rewrite IH. destruct Hx as [|y l' Hxy _]; [reflexivity|].
  simpl. unfold Moru.sibling_le in Hxy.
  destruct (Z.leb_spec (cmp x y) 0); [reflexivity|lia].
Qed.

Lemma node_of_listed fuel depth f n :
  node fuel depth f = Some n ->
  strip_children n = listed_info f
  /\ (fi_children n = None <-> fi_type n = TFile)
  /\ (fi_type n = TDirectory ->
      fi_children n = build fuel (fi_path n) (depth_succ depth)).
Proof.
  unfold Moru.node_of, strip_children, listed_info.
  destruct (l_type f) eqn:Ht.
  - intros [= <-]. simpl.
    repeat split; try reflexivity. discriminate.
  - destruct (build fuel (l_path f) (depth_succ depth)) as [cs|] eqn:Hb;
      simpl; [|discriminate].
    intros [= <-]. simpl.
    repeat split; try discriminate. intros _. symmetry. exact Hb.
Qed.

Lemma Forall_result_in (P : FileInfo -> Prop) fuel depth files result :
  Forall2 (fun f n => node fuel depth f = Some n) files result ->
  (forall f n, In f files -> node fuel depth f = Some n -> P n) ->
  Forall P (array_sort cmp result).
Proof.
  intros H2 HP. apply MoruClaims.Forall_array_sort.
  induction H2 as [|f n files result Hn _ IH]; constructor.
  - apply (HP f n); [left; reflexivity|exact Hn].
  - apply IH. intros f' n' Hin. apply HP. right. exact Hin.
Qed.

(** A property that every node built from a listed entry has holds of
    every node of the tree, at every level. *)
Lemma buildNode_all_nodes (Q : FileInfo -> Prop) :
  (forall fuel depth p files f n,
     listFiles p = Ok files -> In f files ->
     node fuel depth f = Some n -> Q n) ->
  forall fuel currentPath depth t,
    build fuel currentPath depth = Some t ->
    forall k, Forall Q (nodes_at k t).
Proof.
  intros HQ. induction fuel as [|fuel IH]; intros currentPath depth t Hb k;
    [discriminate|].
  destruct (MoruClaims.buildNode_inv _ _ _ _ _ _ _ Hb)
    as [-> | (fuel' & files & result & [= <-] & _ & Hl & H2 & ->)];
    [rewrite MoruClaims.nodes_at_nil; constructor|].
  destruct k as [|k].
  - simpl. eapply Forall_result_in; [exact H2|].
    intros f n Hin Hn. exact (HQ _ _ _ _ _ _ Hl Hin Hn).
  - apply MoruClaims.Forall_nodes_at_S.
    eapply Forall_result_in; [exact H2|].
    intros f n _ Hn cs Hcs.
    destruct (MoruClaims.node_of_inv _ _ _ _ _ _ _ Hn)
      as (_ & _ & [[_ Hnone] | (cs' & _ & Hsome & Hb')]).
    + rewrite Hnone in Hcs. discriminate.
    + rewrite Hsome in Hcs. injection Hcs as <-.
      apply (IH _ _ _ Hb').
Qed.

End Contents.

Lemma depth_gt_integer depth m :
  depth_gt depth (number_of_Z m) = Z.ltb m depth.
Proof.
  unfold number_of_Z. rewrite MoruClaims.depth_gt_floor, Qround.Qfloor_Z.
  reflexivity.
Qed.

(** For an integer limit below 2^53, a call one level down is the call
    at this level with the limit reduced by one. *)
Lemma buildNode_shift localeCompare listFiles m :
  m < MAX_EXACT ->
  forall fuel currentPath depth,
    0 <= depth ->
    buildNode localeCompare listFiles (number_of_Z m) fuel currentPath
      (depth + 1)
    = buildNode localeCompare listFiles (number_of_Z (m - 1)) fuel
        currentPath depth.
Proof.
  intros Hm. induction fuel as [|fuel IH]; intros currentPath depth Hd;
    [reflexivity|].
  rewrite !MoruClaims.buildNode_unfold, !depth_gt_integer.
  replace (Z.ltb (m - 1) depth) with (Z.ltb m (depth + 1))
    by (destruct (Z.ltb_spec m (depth + 1)), (Z.ltb_spec (m - 1) depth);
        trivial; lia).
  destruct (Z.ltb_spec m (depth + 1)) as [|Hle]; [reflexivity|].
  destruct (listFiles currentPath) as [files|e]; [|reflexivity].
  assert (Hext : mapM (node_of localeCompare listFiles (number_of_Z m)
                         fuel (depth + 1)) files
                 = mapM (node_of localeCompare listFiles
                           (number_of_Z (m - 1)) fuel depth) files).
  { apply mapM_ext. intros f. unfold node_of.
    destruct (l_type f); [reflexivity|].
    rewrite !MoruClaims.depth_succ_below by lia.
    rewrite IH by lia. reflexivity. }
  rewrite Hext. reflexivity.
Qed.

(** X17: with a localeCompare that orders strings consistently, sorting
    an array that is already sorted leaves it as it is, so sorting twice
    is the same as sorting once. *)
Theorem array_sort_idempotent localeCompare l :
  consistent localeCompare ->
  array_sort (compareNodes localeCompare)
    (array_sort (compareNodes localeCompare) l)
  = array_sort (compareNodes localeCompare) l.
Proof.
  intros Hc. apply sorted_unchanged.
  apply MoruClaims.array_sort_sorted. exact Hc.
Qed.

Lemma array_sort_idempotent_witness :
  consistent ordinalCompare
  /\ array_sort (compareNodes ordinalCompare)
       (array_sort (compareNodes ordinalCompare)
          (listVolumeFiles small_volume "/"))
     = array_sort (compareNodes ordinalCompare)
         (listVolumeFiles small_volume "/").
Proof.
  split; [exact MoruClaims.ordinalCompare_consistent|].
  apply (array_sort_idempotent ordinalCompare
           (listVolumeFiles small_volume "/")
           MoruClaims.ordinalCompare_consistent).
Defined.

Lemma buildFileTree_root localeCompare listFiles maxDepth fuel path t :
  depth_gt 0 maxDepth = false ->
  buildFileTree localeCompare listFiles maxDepth fuel path = Some t ->
  (listFiles path = Ok [] \/ (exists e, listFiles path = Throws e)) /\ t = []
  \/ exists fuel' files result,
       fuel = S fuel'
       /\ listFiles path = Ok files
       /\ Forall2
            (fun f n =>
               node_of localeCompare listFiles maxDepth fuel' 0 f = Some n)
            files result
       /\ t = array_sort (compareNodes localeCompare) result.
Proof.
  intros Hmd. unfold buildFileTree.
  destruct fuel as [|fuel']; [discriminate|].
  rewrite MoruClaims.buildNode_unfold, Hmd.
  destruct (listFiles path) as [files|e];
    [|intros [= <-]; left; split; [right; exists e|]; reflexivity].
  destruct (mapM _ files) as [result|] eqn:Hm; simpl; [|discriminate].
  intros [= <-]. right. exists fuel', files, result.
  split; [reflexivity|]. split; [reflexivity|]. split; [|reflexivity].
  apply mapM_Some_1. exact Hm.
Qed.

(** X18: for a depth limit that 0 does not exceed (a number that is not
    negative, Infinity or NaN), the top level of the tree holds exactly
    the entries that listVolumeFiles returns for the same path, each
    once, with the same name, type, size and path: the two differ only
    in order and in the children of directories. *)
Theorem tree_top_level_is_listing
    localeCompare listFiles maxDepth fuel path t :
  depth_gt 0 maxDepth = false ->
  buildFileTree localeCompare listFiles maxDepth fuel path = Some t ->
  map strip_children t ≡ₚ listVolumeFiles listFiles path
  /\ length t = length (listVolumeFiles listFiles path).
Proof.
  intros Hmd Ht.
  assert (Hp : map strip_children t ≡ₚ listVolumeFiles listFiles path).
  { unfold listVolumeFiles.
    destruct (buildFileTree_root _ _ _ _ _ _ Hmd Ht)
      as [([Hl | [e Hl]] & ->) | (fuel' & files & result & _ & Hl & H2 & ->)];
      rewrite Hl; try reflexivity.
    rewrite (Permutation_map strip_children
               (proj1 (array_sort_permutation _ result))).
    replace (map strip_children result) with (map listed_info files);
      [reflexivity|].
    clear Ht Hl.
    induction H2 as [|f n files result Hn _ IH]; [reflexivity|].
    simpl. rewrite IH.
    destruct (node_of_listed _ _ _ _ _ _ _ Hn) as [-> _]. reflexivity. }
  split; [exact Hp|].
  rewrite <- (length_map strip_children t). rewrite Hp. reflexivity.
Qed.

Lemma tree_top_level_is_listing_witness :
  depth_gt 0 (number_of_Z 5) = false
  /\ buildFileTree ordinalCompare small_volume (number_of_Z 5) (enough_fuel 6)
       "/" = Some small_tree
  /\ map strip_children small_tree ≡ₚ listVolumeFiles small_volume "/"
  /\ length small_tree = 4%nat.
Proof.
  assert (Hmd : depth_gt 0 (number_of_Z 5) = false) by reflexivity.
  assert (Ht : buildFileTree ordinalCompare small_volume (number_of_Z 5)
                 (enough_fuel 6) "/" = Some small_tree) by reflexivity.
  split; [exact Hmd|]. split; [exact Ht|].
  destruct (tree_top_level_is_listing ordinalCompare small_volume
              (number_of_Z 5) (enough_fuel 6) "/" small_tree Hmd Ht)
    as [Hp Hl].
  split; [exact Hp|exact Hl].
Defined.

(** X19: for an integer depth limit from 0 to below 2^53, the children
    of a directory at the top level of the tree are the tree that
    buildFileTree builds from the path of that directory with the depth
    limit reduced by one (and one nested call fewer). *)
Theorem directory_children_are_its_tree
    localeCompare listFiles m fuel path t n :
  0 <= m < MAX_EXACT ->
  buildFileTree localeCompare listFiles (number_of_Z m) (S fuel) path
  = Some t ->
  In n t ->
  fi_type n = TDirectory ->
  fi_children n
  = buildFileTree localeCompare listFiles (number_of_Z (m - 1)) fuel
      (fi_path n).
Proof.
  intros Hm Ht Hin Hdir.
  assert (Hmd : depth_gt 0 (number_of_Z m) = false).
  { rewrite depth_gt_integer. apply Z.ltb_ge. lia. }
  destruct (buildFileTree_root _ _ _ _ _ _ Hmd Ht)
    as [(_ & ->) | (fuel' & files & result & [= <-] & _ & H2 & ->)];
    [destruct Hin|].
  assert (Hall : Forall
                   (fun n => fi_type n = TDirectory ->
                             fi_children n
                             = buildNode localeCompare listFiles
                                 (number_of_Z m) fuel (fi_path n)
                                 (depth_succ 0))
                   (array_sort (compareNodes localeCompare) result)).
  { eapply Forall_result_in; [exact H2|].
    intros f n' _ Hn'. apply (node_of_listed _ _ _ _ _ _ _ Hn'). }
  rewrite List.Forall_forall in Hall. rewrite (Hall n Hin Hdir).
  unfold buildFileTree.
  change (depth_succ 0) with (0 + 1).
  apply buildNode_shift; lia.
Qed.

Lemma directory_children_are_its_tree_witness :
  0 <= 5 < MAX_EXACT
  /\ buildFileTree ordinalCompare small_volume (number_of_Z 5) 7 "/"
     = Some small_tree
  /\ buildFileTree ordinalCompare small_volume (number_of_Z 4) 6 "/src"
     = Some [ mkFileInfo "lib" TDirectory None "/src/lib" (Some []);
              mkFileInfo "main.ts" TFile (Some 40) "/src/main.ts" None ].
Proof.
  assert (Hmd : 0 <= 5 < MAX_EXACT) by (unfold MAX_EXACT; lia).
  assert (Ht : buildFileTree ordinalCompare small_volume (number_of_Z 5) 7 "/"
               = Some small_tree) by reflexivity.
  split; [exact Hmd|]. split; [exact Ht|].
  symmetry.
  apply (directory_children_are_its_tree ordinalCompare small_volume 5 6 "/"
           small_tree
           (mkFileInfo "src" TDirectory None "/src"
              (Some [ mkFileInfo "lib" TDirectory None "/src/lib" (Some []);
                      mkFileInfo "main.ts" TFile (Some 40) "/src/main.ts"
                        None ])) Hmd Ht).
  - right. left. reflexivity.
  - reflexivity.
Defined.

(** X20: every node of the tree, at every level, carries the name, type,
    size and path of an entry that the volume listed for some path; a
    file node has no children field and a directory node always has
    one. *)
Theorem tree_nodes_are_listed localeCompare listFiles maxDepth fuel path t :
  buildFileTree localeCompare listFiles maxDepth fuel path = Some t ->
  forall k,
    Forall
      (fun n =>
         (exists p files f,
            listFiles p = Ok files /\ In f files
            /\ strip_children n = listed_info f)
         /\ (fi_children n = None <-> fi_type n = TFile))
      (nodes_at k t).
Proof.
  intros Ht. eapply buildNode_all_nodes; [|exact Ht].
  intros fuel' depth p files f n Hl Hin Hn.
  destruct (node_of_listed _ _ _ _ _ _ _ Hn) as (Hs & Hshape & _).
  split; [|exact Hshape]. exists p, files, f. repeat split; assumption.
Qed.

Lemma tree_nodes_are_listed_witness :
  buildFileTree ordinalCompare small_volume (number_of_Z 5) (enough_fuel 6)
    "/" = Some small_tree
  /\ Forall
       (fun n =>
          (exists p files f,
             small_volume p = Ok files /\ In f files
             /\ strip_children n = listed_info f)
          /\ (fi_children n = None <-> fi_type n = TFile))
       (nodes_at 1 small_tree).
Proof.
  assert (Ht : buildFileTree ordinalCompare small_volume (number_of_Z 5)
                 (enough_fuel 6) "/" = Some small_tree) by reflexivity.
  split; [exact Ht|].
  apply (tree_nodes_are_listed ordinalCompare small_volume (number_of_Z 5)
           (enough_fuel 6) "/" small_tree Ht 1%nat).
Defined.

(** X21: the path that readVolumeFile asks the provider for always
    starts with a slash; a path that already does is sent as it is, any
    other gets one slash in front; making a path absolute twice is the
    same as once. *)
Theorem absolutePath_is_absolute path :
  String.prefix "/" (absolutePath path) = true
  /\ (String.prefix "/" path = true -> absolutePath path = path)
  /\ (String.prefix "/" path = false -> absolutePath path = "/" +:+ path)
  /\ absolutePath (absolutePath path) = absolutePath path.
Proof.
  assert (Habs : String.prefix "/" (absolutePath path) = true).
  { unfold absolutePath. destruct (String.prefix "/" path) eqn:Hp;
      [exact Hp|]. simpl. destruct path; reflexivity. }
  split; [exact Habs|]. split; [|split].
  - unfold absolutePath. intros ->. reflexivity.
  - unfold absolutePath. intros ->. reflexivity.
  - unfold absolutePath at 1. rewrite Habs. reflexivity.
Qed.

End MoruExtra.

(** ** Creating a sandbox *)

Module ProviderExtra.
Import Provider.

(** X22: createSandbox hands back a sandbox only after exactly two
    provider calls, Sandbox.create and then commands.run in the sandbox
    that create returned; the key is set, the volume is mounted at
    /workspace/data, the timeout is 30 minutes, the session to resume is
    the given one or the empty string, and the callback URL is the status
    route of that conversation. *)
Theorem createSandbox_returns_after_create_and_run
    env sdk volumeId conversationId sessionId calls sandbox pid :
  createSandbox env sdk volumeId conversationId sessionId
  = (calls, Ok (sandbox, pid)) ->
  truthy (ANTHROPIC_API_KEY env) = true
  /\ create_answer sdk = Ok sandbox
  /\ run_answer sdk = Ok pid
  /\ exists opts baseUrl,
       calls
       = [ SandboxCreate "hackathon-ts-agent" opts;
           CommandsRun sandbox "node /app/agent.js"
             {| co_background := true; co_stdin := true;
                co_cwd := "/workspace" |} ]
       /\ so_volumeId opts = volumeId
       /\ so_volumeMountPath opts = "/workspace/data"
       /\ so_timeoutMs opts = 1800000
       /\ baseUrl
          = (if truthy (BASE_URL env) then default "" (BASE_URL env)
             else "http://localhost:3000")
       /\ so_envs opts
          = [ ("ANTHROPIC_API_KEY", default "" (ANTHROPIC_API_KEY env));
              ("CALLBACK_URL",
               baseUrl +:+ "/api/conversations/" +:+ conversationId
                 +:+ "/status");
              ("RESUME_SESSION_ID",
               if truthy sessionId then default "" sessionId else "") ].
Proof.
  unfold createSandbox.
  destruct (ANTHROPIC_API_KEY env) as [key|] eqn:Hkey; [|discriminate].
  destruct (truthy (Some key)) eqn:Ht; simpl negb; cbv iota; [|discriminate].
  destruct (create_answer sdk) as [sb|e]; [|discriminate].
  destruct (run_answer sdk) as [p|e]; [|discriminate].
  intros [= <- <- <-]. repeat split.
  eexists. exists (if truthy (BASE_URL env) then default "" (BASE_URL env)
                   else "http://localhost:3000").
  split; [reflexivity|]. cbn [so_volumeId so_volumeMountPath so_timeoutMs so_envs].
  repeat split.
  unfold or_else.
  destruct (BASE_URL env) as [b|], sessionId as [sid|]; simpl;
    repeat match goal with
           | |- context [String.eqb ?x ""] => destruct (String.eqb x "")
           end; reflexivity.
Qed.

Lemma createSandbox_returns_after_create_and_run_witness :
  createSandbox keyed answering "v1" "c1" None
  = ([ SandboxCreate "hackathon-ts-agent"
         {| so_volumeId := "v1"; so_volumeMountPath := "/workspace/data";
            so_envs :=
              [ ("ANTHROPIC_API_KEY", "sk-test");
                ("CALLBACK_URL",
                 "http://localhost:3000/api/conversations/c1/status");
                ("RESUME_SESSION_ID", "") ];
            so_timeoutMs := 1800000 |};
       CommandsRun "sb1" "node /app/agent.js"
         {| co_background := true; co_stdin := true;
            co_cwd := "/workspace" |} ], Ok ("sb1", 42))
  /\ truthy (ANTHROPIC_API_KEY keyed) = true.
Proof.
  assert (H : createSandbox keyed answering "v1" "c1" None
              = ([ SandboxCreate "hackathon-ts-agent"
                     {| so_volumeId := "v1";
                        so_volumeMountPath := "/workspace/data";
                        so_envs :=
                          [ ("ANTHROPIC_API_KEY", "sk-test");
                            ("CALLBACK_URL",
                             "http://localhost:3000/api/conversations/c1/status");
                            ("RESUME_SESSION_ID", "") ];
                        so_timeoutMs := 1800000 |};
                   CommandsRun "sb1" "node /app/agent.js"
                     {| co_background := true; co_stdin := true;
                        co_cwd := "/workspace" |} ], Ok ("sb1", 42)))
    by reflexivity.
  split; [exact H|].
  apply (createSandbox_returns_after_create_and_run _ _ _ _ _ _ _ _ H).
Defined.

(** X23: createSandbox never starts the agent command unless the key is
    set and Sandbox.create has returned; without a usable key (unset or
    empty) it makes no provider call at all and throws. *)
Theorem createSandbox_guards env sdk volumeId conversationId sessionId :
  let r := createSandbox env sdk volumeId conversationId sessionId in
  (existsb is_run r.1 = true ->
   truthy (ANTHROPIC_API_KEY env) = true
   /\ exists sandbox, create_answer sdk = Ok sandbox)
  /\ (truthy (ANTHROPIC_API_KEY env) = false ->
      r = ([], Throws (ErrorObj
                         "ANTHROPIC_API_KEY environment variable is not set")))
  /\ (length r.1 <= 2)%nat.
Proof.
  cbv zeta. unfold createSandbox.
  destruct (ANTHROPIC_API_KEY env) as [key|] eqn:Hkey.
  2:{ simpl. repeat split; try discriminate; lia. }
  destruct (truthy (Some key)) eqn:Ht; simpl negb; cbv iota.
  2:{ simpl. repeat split; try discriminate; lia. }
  destruct (create_answer sdk) as [sb|e].
  - destruct (run_answer sdk) as [p|e]; simpl;
      (split; [intros _; split; [reflexivity|exists sb; reflexivity]|];
       split; [discriminate|lia]).
  - simpl. split; [discriminate|]. split; [discriminate|lia].
Qed.

End ProviderExtra.
